(** * AjaxSolr.AbstractManager: a shallow embedding and its specification

    The manager of ajax-solr (core/AbstractManager.js) keeps a registry of
    widgets, folds them over a base query, serialises the query for Solr,
    and mirrors the query in the URL hash.  This file embeds the manager's
    methods as computations on an explicit state (the manager's fields, a
    store of JavaScript arrays, the fragment of [window.location]) that end
    normally or in an exception, and proves the properties documented for
    them.

    Layout: JavaScript strings and numbers; the data model (items, the array
    store, the query object); widgets and the other collaborators, which are
    parameters; the manager's methods; sample collaborators to run the
    methods on; the vocabulary of the specification; then the lemmas and
    theorems.  Of [init], the start-up and the callback it hands to the
    interval timer are embedded; the timer itself is the browser's. *)

From Stdlib Require Import String Ascii ZArith List Lia Permutation Sorted.
From Stdlib Require Import DecimalString DecimalPos.
From stdpp Require Import gmap strings list.

Open Scope string_scope.
Open Scope list_scope.

(* stdpp blocks the unfolding of string concatenation; the proofs below
   compute with it. *)
#[local] Arguments String.append : simpl nomatch.

(** ** JavaScript strings *)

Module Js.

(** [s.substring(n)]: the string without its first [n] characters. *)
Fixpoint drop (n : nat) (s : string) : string :=
  match n, s with
  | O, _ => s
  | S n', String _ s' => drop n' s'
  | S _, EmptyString => EmptyString
  end.

Fixpoint take (n : nat) (s : string) : string :=
  match n, s with
  | S n', String c s' => String c (take n' s')
  | _, _ => EmptyString
  end.

(** [s.substring(a, b)]: the arguments are swapped when [a > b], and both
    are clamped to the length of [s]. *)
Definition substring (a b : nat) (s : string) : string :=
  take (Nat.max a b - Nat.min a b) (drop (Nat.min a b) s).

(** [s.split(c)] for a one-character separator: never the empty list, the
    empty string splits into one empty piece. *)
Fixpoint split (sep : ascii) (s : string) : list string :=
  match s with
  | EmptyString => [EmptyString]
  | String c s' =>
      if Ascii.eqb c sep then EmptyString :: split sep s'
      else match split sep s' with
           | piece :: rest => String c piece :: rest
           | [] => [String c EmptyString]
           end
  end.

(** [hay.indexOf(needle) != -1] *)
Definition includes (needle hay : string) : bool :=
  match String.index 0 needle hay with
  | Some _ => true
  | None => false
  end.

(** [a.join(sep)] on an array of strings. *)
Definition join (sep : string) (a : list string) : string :=
  String.concat sep a.

(** ** JavaScript numbers

    The manager handles integral numbers ([start], [rows]), the [NaN] that
    [parseInt] returns for text without a digit, and the infinity it
    returns for digits beyond the range of a double.  [Int z] stands for the
    number of value [z]; the numbers of JavaScript among them are those with
    [representable z], which includes every integer of magnitude up to 2^53,
    and [parseInt] returns no others. *)
Inductive Number : Type :=
  | NaN
  | Int (z : Z)
  | Infinity (negative : bool).

(** [a >= 0] rounded to the nearest integer a double holds: the 53 leading
    bits are kept, a tie goes to the even significand. *)
Definition round_to_double (a : Z) : Z :=
  if (a <? 2 ^ 53)%Z then a
  else
    let sh := (Z.log2 a - 52)%Z in
    let q := Z.shiftr a sh in
    let r := (a - Z.shiftl q sh)%Z in
    let half := Z.shiftl 1 (sh - 1) in
    let q' :=
      if (r <? half)%Z || ((r =? half)%Z && Z.even q) then q else (q + 1)%Z in
    Z.shiftl q' sh.

Definition representable (z : Z) : bool :=
  (round_to_double (Z.abs z) =? Z.abs z)%Z && (Z.abs z <? 2 ^ 1024)%Z.

(** [Number.isSafeInteger(n)]: an integer of magnitude below 2^53. *)
Definition isSafeInteger (n : Number) : bool :=
  match n with
  | Int z => (Z.abs z <? 2 ^ 53)%Z
  | _ => false
  end.

(** The number that the mathematical integer [a >= 0], negated if
    [negative], becomes: the nearest double, an infinity from 2^1024 on. *)
Definition number_of (negative : bool) (a : Z) : Number :=
  let r := round_to_double a in
  if (2 ^ 1024 <=? r)%Z then Infinity negative
  else Int (if negative then - r else r)%Z.

(** The decimal digits of an integer. *)
Definition digits (z : Z) : string := NilEmpty.string_of_int (Z.to_int z).

(** [4 * v] lies in the interval of the reals that round to the double
    [a >= 2^53]: half the distance to the next double on either side, the
    bounds included when the significand of [a] is even.  Below a power of
    two the doubles are twice as dense. *)
Definition rounds_to (a v : Z) : bool :=
  let ulp := Z.shiftl 1 (Z.log2 a - 52) in
  let hi := (4 * a + 2 * ulp)%Z in
  let lo := (4 * a - (if (a =? Z.shiftl 1 (Z.log2 a))%Z then ulp else 2 * ulp))%Z in
  if Z.even (Z.shiftr a (Z.log2 a - 52))
  then (lo <=? 4 * v)%Z && (4 * v <=? hi)%Z
  else (lo <? 4 * v)%Z && (4 * v <? hi)%Z.

(** The integer with the fewest significant digits that rounds to [a]: the
    largest power of ten [10^p] with a multiple that rounds to [a], and of
    its multiples the one nearest to [a], the even one on a tie (Number's
    [toString] as the engines in use implement it). *)
Fixpoint shortest (p : nat) (a : Z) : Z :=
  match p with
  | O => a
  | S p' =>
      let t := (10 ^ Z.of_nat p)%Z in
      let below := (a / t * t)%Z in
      let above := (below + t)%Z in
      let below_first :=
        (a - below <? above - a)%Z
        || ((a - below =? above - a)%Z && Z.even (a / t)) in
      let c1 := if below_first then below else above in
      let c2 := if below_first then above else below in
      if rounds_to a c1 then c1
      else if rounds_to a c2 then c2
      else shortest p' a
  end.

Fixpoint strip_zeros (s : string) : string :=
  match s with
  | EmptyString => EmptyString
  | String c s' =>
      match strip_zeros s' with
      | EmptyString =>
          if Ascii.eqb c "0" then EmptyString else String c EmptyString
      | r => String c r
      end
  end.

(** The text of a positive integer [v] of which the significant digits are
    to be shown: all its digits up to 21 of them, the exponent form
    [d.ddde+n] beyond. *)
Definition integer_text (v : Z) : string :=
  let d := digits v in
  let n := String.length d in
  if Nat.leb n 21 then d
  else
    match strip_zeros d with
    | String c EmptyString =>
        String c ("e+" +:+ digits (Z.of_nat (n - 1)))
    | String c rest =>
        String c ("." +:+ rest +:+ "e+" +:+ digits (Z.of_nat (n - 1)))
    | EmptyString => d
    end.

(** [String(n)], as used by ['start=' + n]: every digit of an integer of
    magnitude below 2^53, the shortest digits that read back as the same
    double from there on. *)
Definition toString (n : Number) : string :=
  match n with
  | NaN => "NaN"
  | Infinity negative => if negative then "-Infinity" else "Infinity"
  | Int z =>
      let a := Z.abs z in
      if (a <? 2 ^ 53)%Z then digits z
      else
        (if (z <? 0)%Z then "-" else "")
        +:+ integer_text (shortest (String.length (digits a)) a)
  end.

(** White space skipped by [parseInt] (the ASCII part of StrWhiteSpaceChar). *)
Definition is_space (c : ascii) : bool :=
  match nat_of_ascii c with
  | 9 | 10 | 11 | 12 | 13 | 32 => true
  | _ => false
  end.

Fixpoint skip_spaces (s : string) : string :=
  match s with
  | String c s' => if is_space c then skip_spaces s' else s
  | EmptyString => EmptyString
  end.

(** Value of a character as a digit, in any radix up to 36. *)
Definition digit_value (c : ascii) : option Z :=
  let n := Z.of_nat (nat_of_ascii c) in
  if (48 <=? n)%Z && (n <=? 57)%Z then Some (n - 48)%Z
  else if (97 <=? n)%Z && (n <=? 122)%Z then Some (n - 87)%Z
  else if (65 <=? n)%Z && (n <=? 90)%Z then Some (n - 55)%Z
  else None.

(** The longest prefix of [s] made of digits of [radix], read left to right;
    [acc] is [None] until a first digit has been read. *)
Fixpoint read_digits (radix : Z) (s : string) (acc : option Z) : option Z :=
  match s with
  | EmptyString => acc
  | String c s' =>
      match digit_value c with
      | Some d =>
          if (d <? radix)%Z
          then read_digits radix s' (Some (default 0%Z acc * radix + d)%Z)
          else acc
      | None => acc
      end
  end.

(** [parseInt(s)] without a radix argument: leading white space, an optional
    sign, an optional [0x]/[0X] prefix selecting radix 16, then the longest
    run of digits, read as an integer and rounded to a double; [NaN] when
    there is no digit.  (ECMAScript lets an implementation approximate a
    decimal integer after its 20th significant digit; the engines in use
    round it correctly, as here.) *)
Definition parseInt (s : string) : Number :=
  let s1 := skip_spaces s in
  let '(neg, s2) :=
    match s1 with
    | String "-"%char r => (true, r)
    | String "+"%char r => (false, r)
    | _ => (false, s1)
    end in
  let '(radix, s3) :=
    match s2 with
    | String "0"%char (String "x"%char r) => (16%Z, r)
    | String "0"%char (String "X"%char r) => (16%Z, r)
    | _ => (10%Z, s2)
    end in
  match read_digits radix s3 None with
  | None => NaN
  | Some v => number_of neg v
  end.

(** ** Property names *)

(** The names every object inherits from [Object.prototype], where no
    script has added to it.  Read on an object that has no property of its
    own under that name, each yields the inherited value, a function or (for
    [__proto__]) the prototype: never [undefined], and always truthy.  None
    of them is enumerable: [for (k in o)] does not visit them. *)
Definition Object_prototype : list string :=
  ["constructor"; "hasOwnProperty"; "isPrototypeOf"; "propertyIsEnumerable";
   "toLocaleString"; "toString"; "valueOf"; "__proto__";
   "__defineGetter__"; "__defineSetter__"; "__lookupGetter__";
   "__lookupSetter__"].

Definition inherited (k : string) : bool :=
  existsb (String.eqb k) Object_prototype.

(** The number that a run of decimal digits denotes. *)
Fixpoint decimal (s : string) (acc : N) : option N :=
  match s with
  | EmptyString => Some acc
  | String c s' =>
      let n := N.of_nat (nat_of_ascii c) in
      if (48 <=? n)%N && (n <=? 57)%N then decimal s' (acc * 10 + (n - 48))%N
      else None
  end.

(** A property name that is an array index: the canonical decimal text of
    an integer below 2^32 - 1.  [for (k in o)] enumerates these names first,
    in ascending numeric order, and the other names after them in the order
    in which the properties were created. *)
Definition array_index (k : string) : option N :=
  match k with
  | EmptyString => None
  | String "0"%char EmptyString => Some 0%N
  | String "0"%char _ => None
  | _ =>
      match decimal k 0 with
      | Some n => if (n <? 4294967295)%N then Some n else None
      | None => None
      end
  end.

End Js.


(** ** Data model *)

(** [AjaxSolr.QueryItem]: one free-text term. *)
Record QueryItem : Type := { qi_value : string }.

(** [AjaxSolr.FilterQueryItem]: one facet filter, tagged with the id of the
    widget that owns it. *)
Record FilterQueryItem : Type :=
  { fq_widgetId : string; fq_field : string; fq_value : string }.

(** An entry of [queryObj.dates]. *)
Record DateFacet : Type :=
  { date_field : string; date_start : string; date_end : string;
    date_gap : string }.

(** *** The array store

    JavaScript arrays are objects with identity: [this.filters.q] and
    [queryObj.q] are references, [slice()] allocates, [push] mutates in
    place.  Arrays live in a store indexed by location, one store per element
    type; a location that was never allocated reads as the empty array.  The
    elements are values: [slice()] copies the array, not the items, but no
    method of the manager writes to an item. *)
Definition loc : Type := positive.

Abbreviation store A := (gmap loc (list A)).

Section Store.
Context {A : Type}.

Definition read (s : store A) (l : loc) : list A := default [] (s !! l).

Definition write (s : store A) (l : loc) (v : list A) : store A :=
  <[l := v]> s.

(** A new array holding [v]. *)
Definition alloc (s : store A) (v : list A) : loc * store A :=
  let l := fresh (dom s) in (l, <[l := v]> s).

(** [a.slice()]: a new array with the elements of the array at [l]. *)
Definition slice (s : store A) (l : loc) : loc * store A :=
  alloc s (read s l).

(** [a.push(x)] *)
Definition push (s : store A) (l : loc) (x : A) : store A :=
  write s l (read s l ++ [x]).
End Store.

Record Heap : Type := mkHeap {
  h_str : store string;
  h_date : store DateFacet;
  h_q : store QueryItem;
  h_fq : store FilterQueryItem;
}.

Definition with_str (h : Heap) (s : store string) : Heap :=
  mkHeap s (h_date h) (h_q h) (h_fq h).

(** *** The query object

    [queryObj] as the manager's methods see it: five array references and
    three scalars.  [qo_sort] is [None] while the property is undefined. *)
Record QueryObj : Type := mkQueryObj {
  qo_fields : loc;
  qo_dates : loc;
  qo_q : loc;
  qo_fl : loc;
  qo_fq : loc;
  qo_start : Js.Number;
  qo_rows : Js.Number;
  qo_sort : option string;
}.

(** The contents of a query object: what a reader of [queryObj] finds behind
    the references. *)
Record QueryData : Type := mkQueryData {
  d_fields : list string;
  d_dates : list DateFacet;
  d_q : list QueryItem;
  d_fl : list string;
  d_fq : list FilterQueryItem;
  d_start : Js.Number;
  d_rows : Js.Number;
  d_sort : option string;
}.

Definition contents (h : Heap) (o : QueryObj) : QueryData :=
  {| d_fields := read (h_str h) (qo_fields o);
     d_dates := read (h_date h) (qo_dates o);
     d_q := read (h_q h) (qo_q o);
     d_fl := read (h_str h) (qo_fl o);
     d_fq := read (h_fq h) (qo_fq o);
     d_start := qo_start o;
     d_rows := qo_rows o;
     d_sort := qo_sort o |}.

(** Writing [d] through the references of [o]: the arrays are updated in
    place, the scalars are assigned. *)
Definition assign (h : Heap) (o : QueryObj) (d : QueryData) : Heap * QueryObj :=
  ({| h_str := write (write (h_str h) (qo_fields o) (d_fields d))
                     (qo_fl o) (d_fl d);
      h_date := write (h_date h) (qo_dates o) (d_dates d);
      h_q := write (h_q h) (qo_q o) (d_q d);
      h_fq := write (h_fq h) (qo_fq o) (d_fq d) |},
   {| qo_fields := qo_fields o; qo_dates := qo_dates o; qo_q := qo_q o;
      qo_fl := qo_fl o; qo_fq := qo_fq o;
      qo_start := d_start d; qo_rows := d_rows d; qo_sort := d_sort d |}).

(** ** Widgets

    The widget classes are outside AbstractManager.js; the manager only uses
    the methods below.  A widget's methods act on the widget itself and, for
    [alterQuery], on the query object they are handed: [alterQuery] is a
    function on the contents of that object, written back through its
    references; [displayQuery] reads the contents.  Items handed to the
    selection methods are values (the manager passes [item.value]). *)
Class Widget (W : Type) : Type := {
  widget_id : W -> string;
  widget_afterAdditionToManager : W -> W;
  widget_selectItems : list string -> W -> bool * W;
  widget_deselectItems : list string -> W -> bool * W;
  widget_deselectAll : W -> W;
  widget_alterQuery : W -> QueryData -> QueryData;
  widget_displayQuery : QueryData -> W -> W;
  widget_startAnimation : W -> W;
}.

(** A widget whose selection can be observed as a list of values, with the
    two facts about the mutators that the manager's documentation relies on:
    [deselectAll] "removes all items", [selectItems] "adds the given items". *)
Class SelectionWidget (W : Type) `{Widget W} : Type := {
  selected : W -> list string;
  selected_deselectAll : forall w, selected (widget_deselectAll w) = [];
  selected_selectItems : forall items w,
    Permutation (selected (snd (widget_selectItems items w)))
                (selected w ++ items);
}.

(** ** Collaborators

    [String.prototype.urlencode], the item codecs and the browser's
    treatment of an assigned fragment are defined outside
    AbstractManager.js; the manager's methods are parametric in them. *)
Record Env : Type := {
  urlencode : bool -> string -> string;
  QueryItem_toSolr : bool -> QueryItem -> string;
  QueryItem_toHash : QueryItem -> string;
  QueryItem_parseHash : string -> QueryItem;
  FilterQueryItem_toSolr : bool -> FilterQueryItem -> string;
  FilterQueryItem_toHash : FilterQueryItem -> string;
  FilterQueryItem_parseHash : string -> FilterQueryItem;
  (** the processing a fragment undergoes when assigned to
      [window.location.hash] *)
  url_fragment : string -> string;
}.

(** ** The manager and its world *)

(** The registry [this.widgets]: the object's own properties, in the order
    in which [for (id in this.widgets)] enumerates them: the ids that are
    array indices first, in ascending numeric order, then the other ids in
    the order in which they were first registered.  Ids are unique
    ([unique_ids]). *)
Abbreviation registry W := (list (string * W)).

Record State (W : Type) : Type := mkState {
  filters_q : loc;           (* this.filters.q *)
  filters_fq : loc;          (* this.filters.fq *)
  filters_fl : loc;          (* this.filters.fl *)
  hlFl : string;
  widgets : registry W;
  start : Js.Number;
  hash : string;
  heap : Heap;
  fragment : string;         (* the fragment of window.location *)
}.
Arguments mkState {W}.
Arguments filters_q {W}.
Arguments filters_fq {W}.
Arguments filters_fl {W}.
Arguments hlFl {W}.
Arguments widgets {W}.
Arguments start {W}.
Arguments hash {W}.
Arguments heap {W}.
Arguments fragment {W}.

Section Setters.
Context {W : Type}.
Definition set_widgets (st : State W) (ws : registry W) : State W :=
  mkState (filters_q st) (filters_fq st) (filters_fl st) (hlFl st) ws
          (start st) (hash st) (heap st) (fragment st).
Definition set_start (st : State W) (n : Js.Number) : State W :=
  mkState (filters_q st) (filters_fq st) (filters_fl st) (hlFl st)
          (widgets st) n (hash st) (heap st) (fragment st).
Definition set_hash (st : State W) (s : string) : State W :=
  mkState (filters_q st) (filters_fq st) (filters_fl st) (hlFl st)
          (widgets st) (start st) s (heap st) (fragment st).
Definition set_heap (st : State W) (h : Heap) : State W :=
  mkState (filters_q st) (filters_fq st) (filters_fl st) (hlFl st)
          (widgets st) (start st) (hash st) h (fragment st).
Definition set_fragment (st : State W) (s : string) : State W :=
  mkState (filters_q st) (filters_fq st) (filters_fl st) (hlFl st)
          (widgets st) (start st) (hash st) (heap st) s.
End Setters.

(** [window.location.hash] read: empty when the fragment is empty, else the
    fragment behind a ['#']. *)
Definition location_hash {W} (st : State W) : string :=
  match fragment st with
  | EmptyString => EmptyString
  | f => "#" +:+ f
  end.

(** [window.location.hash = v]: a leading ['#'] is dropped and the rest
    becomes the fragment, after the browser's processing. *)
Definition assign_location_hash {W} (env : Env) (v : string) (st : State W)
  : State W :=
  set_fragment st
    (url_fragment env (match v with String "#"%char r => r | _ => v end)).

(** *** Exceptions and the manager's monad *)

Inductive Exn : Type :=
  | TypeError                 (* a member of undefined, or a call of it *)
  | Thrown (v : string).      (* throw 'string' *)

Inductive Result (S A : Type) : Type :=
  | Ok (a : A) (s : S)
  | Err (e : Exn) (s : S).
Arguments Ok {S A}.
Arguments Err {S A}.

Definition M (S A : Type) : Type := S -> Result S A.

Definition ret {S A} (a : A) : M S A := fun s => Ok a s.
Definition throw {S A} (e : Exn) : M S A := fun s => Err e s.
Definition bind {S A B} (m : M S A) (k : A -> M S B) : M S B :=
  fun s => match m s with
           | Ok a s' => k a s'
           | Err e s' => Err e s'
           end.
Definition gets {S A} (f : S -> A) : M S A := fun s => Ok (f s) s.
Definition modify {S} (f : S -> S) : M S unit := fun s => Ok tt (f s).

Notation "'let!' x ':=' m 'in' k" := (bind m (fun x => k))
  (at level 10, x name, m at level 100, k at level 200).
Notation "'do!' m 'in' k" := (bind m (fun _ => k))
  (at level 10, m at level 100, k at level 200).

(** A loop over a list threading an accumulator: [for (x in l) { ... }]. *)
Fixpoint for_in {S A B} (l : list A) (body : A -> B -> M S B) (b : B)
  : M S B :=
  match l with
  | [] => ret b
  | x :: l' => let! b' := body x b in for_in l' body b'
  end.

Definition final_state {S A} (r : Result S A) : S :=
  match r with Ok _ s => s | Err _ s => s end.

(** *** The registry as a JavaScript object *)

Section Registry.
Context {W : Type}.

(** The own property [id] of the registry. *)
Fixpoint lookup_widget (id : string) (ws : registry W) : option W :=
  match ws with
  | [] => None
  | (k, w) :: ws' =>
      if String.eqb k id then Some w else lookup_widget id ws'
  end.

(** What the read [ws[id]] yields: the widget registered under [id]; or,
    when there is none, what the registry inherits under that name from
    [Object.prototype]; or [undefined]. *)
Inductive Property : Type :=
  | Own (w : W)
  | Inherited
  | Undefined.

Definition get_widget (id : string) (ws : registry W) : Property :=
  match lookup_widget id ws with
  | Some w => Own w
  | None => if Js.inherited id then Inherited else Undefined
  end.

(** The entry under [id] replaced, at its place. *)
Fixpoint update_widget (id : string) (w' : W) (ws : registry W)
  : registry W :=
  match ws with
  | [] => []
  | (k, w) :: ws' =>
      if String.eqb k id then (k, w') :: ws'
      else (k, w) :: update_widget id w' ws'
  end.

(** A new entry whose id is the array index [n]: it is enumerated after
    the smaller indices and before everything else. *)
Fixpoint insert_index (n : N) (e : string * W) (ws : registry W)
  : registry W :=
  match ws with
  | [] => [e]
  | (k, w) :: ws' =>
      match Js.array_index k with
      | Some m =>
          if (m <? n)%N then (k, w) :: insert_index n e ws' else e :: ws
      | None => e :: ws
      end
  end.

(** [ws[id] = w]: an existing property keeps its place; a new one is
    enumerated among the array indices if its name is one, and last
    otherwise.  (The name [__proto__] is no property name in this sense:
    assigning to it replaces the prototype.  A widget of that id is outside
    the model.) *)
Definition put_widget (id : string) (w : W) (ws : registry W)
  : registry W :=
  match lookup_widget id ws with
  | Some _ => update_widget id w ws
  | None =>
      match Js.array_index id with
      | Some n => insert_index n (id, w) ws
      | None => ws ++ [(id, w)]
      end
  end.

Definition unique_ids (ws : registry W) : Prop := NoDup (map fst ws).

Definition registered (id : string) (ws : registry W) : Prop :=
lookup_widget id ws <> None.
End Registry.
Arguments Property W : clear implicits.
Arguments Own {W}.
Arguments Inherited {W}.
Arguments Undefined {W}.

(** Methods a child class overrides: the admission test of [addWidget]
    and the transport.  [executeRequest] may change the world, the arrays
    of the query object included. *)
Record Hooks (W : Type) : Type := {
  canAddWidget : W -> bool;
  executeRequest : QueryObj -> M (State W) unit;
}.
Arguments canAddWidget {W}.
Arguments executeRequest {W}.

(** The two methods as AbstractManager defines them. *)
Definition abstract_hooks (W : Type) : Hooks W :=
  {| canAddWidget := fun _ => true;
     executeRequest := fun _ => throw (Thrown "Abstract method executeRequest") |}.

(** ** The manager's methods *)

Section Manager.
Context {W : Type} `{Widget W}.
Variable env : Env.
Variable hooks : Hooks W.

Local Abbreviation MM := (M (State W)).

(** [this.widgets[id].m()] for a method that returns nothing.  Without a
    widget under [id] the call is a TypeError: [this.widgets[id]] is
    [undefined], or it is an inherited value, which has no method [m]. *)
Definition call (id : string) (m : W -> W) : MM unit :=
  fun st =>
    match lookup_widget id (widgets st) with
    | Some w => Ok tt (set_widgets st (update_widget id (m w) (widgets st)))
    | None => Err TypeError st
    end.

(** [this.widgets[id].m()] for a method that returns a boolean. *)
Definition call_bool (id : string) (m : W -> bool * W) : MM bool :=
  fun st =>
    match lookup_widget id (widgets st) with
    | Some w =>
        Ok (fst (m w))
           (set_widgets st (update_widget id (snd (m w)) (widgets st)))
    | None => Err TypeError st
    end.

(** [this.widgets[id].alterQuery(queryObj)] *)
Definition call_alterQuery (id : string) (queryObj : QueryObj)
  : MM QueryObj :=
  fun st =>
    match lookup_widget id (widgets st) with
    | Some w =>
        let '(h, o) :=
          assign (heap st) queryObj
                 (widget_alterQuery w (contents (heap st) queryObj)) in
        Ok o (set_heap st h)
    | None => Err TypeError st
    end.

(** [for (var widgetId in this.widgets) { body }] *)
Definition for_in_widgets {B} (body : string -> B -> MM B) (b : B) : MM B :=
  let! ids := gets (fun st => map fst (widgets st)) in
  for_in ids body b.

Definition addWidget (widget : W) : MM unit :=
  if canAddWidget hooks widget then
    modify (fun st =>
      set_widgets st
        (put_widget (widget_id widget)
                    (widget_afterAdditionToManager widget) (widgets st)))
  else ret tt.

Definition buildQuery (s : Js.Number) : MM QueryObj :=
  let! queryObj := (fun st =>
    let h := heap st in
    let '(fields, str1) := alloc (h_str h) [] in
    let '(dates, date1) := alloc (h_date h) [] in
    let '(q, q1) := slice (h_q h) (filters_q st) in
    let '(fl, str2) := slice str1 (filters_fl st) in
    let '(fq, fq1) := slice (h_fq h) (filters_fq st) in
    Ok (mkQueryObj fields dates q fl fq s (Js.Int 0) None)
       (set_heap st (mkHeap str2 date1 q1 fq1))) in
  for_in_widgets call_alterQuery queryObj.

(** [if (queryObj.sort)]: defined and not the empty string. *)
Definition truthy (s : option string) : bool :=
  match s with
  | Some (String _ _) => true
  | _ => false
  end.

Definition buildQueryString (queryObj : QueryObj) (skip : bool)
  : MM string :=
  fun st =>
    let h := heap st in
    let query :=
      "facet=true&facet.limit=40&facet.sort=true&facet.mincount=1&hl=true" in
    let query :=
      fold_left (fun query f => query +:+ "&facet.field=" +:+ urlencode env skip f)
                (read (h_str h) (qo_fields queryObj)) query in
    let query :=
      fold_left (fun query d =>
          let field := date_field d in
          let query := query +:+ "&facet.date=" +:+ urlencode env skip field in
          let query := query +:+ "&f." +:+ field +:+ ".facet.date.start="
                             +:+ urlencode env skip (date_start d) in
          let query := query +:+ "&f." +:+ field +:+ ".facet.date.end="
                             +:+ urlencode env skip (date_end d) in
          query +:+ "&f." +:+ field +:+ ".facet.date.gap="
                +:+ urlencode env skip (date_gap d))
        (read (h_date h) (qo_dates queryObj)) query in
    let query :=
      fold_left (fun query i => query +:+ "&fq=" +:+ FilterQueryItem_toSolr env skip i)
                (read (h_fq h) (qo_fq queryObj)) query in
    let q :=
      fold_left (fun q i => q +:+ QueryItem_toSolr env skip i +:+ " ")
                (read (h_q h) (qo_q queryObj)) "" in
    let query := query +:+ "&q=" +:+ q in
    let h := with_str h (push (h_str h) (qo_fl queryObj) "id") in
    let query := query +:+ "&fl=" +:+ Js.join "," (read (h_str h) (qo_fl queryObj)) in
    let query := query +:+ "&rows=" +:+ Js.toString (qo_rows queryObj) in
    let query := query +:+ "&start=" +:+ Js.toString (qo_start queryObj) in
    let query :=
      if truthy (qo_sort queryObj)
      then query +:+ "&sort=" +:+ default "" (qo_sort queryObj)
      else query in
    let query := query +:+ "&hl.fl=" +:+ hlFl st in
    Ok query (set_heap st h).

Definition saveQueryToHash (queryObj : QueryObj) : MM unit :=
  fun st =>
    let h := heap st in
    let hash := "#" in
    let hash :=
      fold_left (fun hash i => hash +:+ "fq=" +:+ FilterQueryItem_toHash env i +:+ "&")
                (read (h_fq h) (qo_fq queryObj)) hash in
    let hash :=
      fold_left (fun hash i => hash +:+ "q=" +:+ QueryItem_toHash env i +:+ "&")
                (read (h_q h) (qo_q queryObj)) hash in
    let hash := hash +:+ "start=" +:+ Js.toString (qo_start queryObj) in
    let st := assign_location_hash env hash st in
    Ok tt (set_hash st (location_hash st)).

Definition doRequest (s : Js.Number) : MM unit :=
  let! queryObj := buildQuery s in
  do! for_in_widgets (fun widgetId _ => call widgetId widget_startAnimation) tt in
  do! for_in_widgets (fun widgetId _ => fun st =>
        call widgetId (widget_displayQuery (contents (heap st) queryObj)) st) tt in
  do! executeRequest hooks queryObj in
  saveQueryToHash queryObj.

Definition doInitialRequest : MM unit :=
  let! s := gets start in doRequest s.

Definition selectItems (widgetId : string) (items : list string) : MM unit :=
  let! changed := call_bool widgetId (widget_selectItems items) in
  if changed then doRequest (Js.Int 0) else ret tt.

Definition deselectItems (widgetId : string) (items : list string)
  : MM unit :=
  let! changed := call_bool widgetId (widget_deselectItems items) in
  if changed then doRequest (Js.Int 0) else ret tt.

Definition deselectWidget (widgetId : string) : MM unit :=
  do! call widgetId widget_deselectAll in
  doRequest (Js.Int 0).

Definition selectOnlyItems (keepId : string) (items : list string)
  : MM unit :=
  do! for_in_widgets (fun widgetId _ =>
        if String.eqb widgetId keepId
        then (do! call_bool keepId (widget_selectItems items) in ret tt)
        else call widgetId widget_deselectAll) tt in
  doRequest (Js.Int 0).

Definition selectOnlyWidget (keepId : string) : MM unit :=
  do! for_in_widgets (fun widgetId _ =>
        if negb (String.eqb widgetId keepId)
        then call widgetId widget_deselectAll
        else ret tt) tt in
  doRequest (Js.Int 0).

Definition deselectAll : MM unit :=
  do! for_in_widgets (fun widgetId _ => call widgetId widget_deselectAll) tt in
  doRequest (Js.Int 0).

(** [if (this.widgets[id]) { this.widgets[id].selectItems([ v ]); }]: the
    test is on the value read, which is truthy for a widget and for every
    inherited value. *)
Definition select_if_present (id v : string) : MM unit :=
  let! p := gets (fun st => get_widget id (widgets st)) in
  match p with
  | Undefined => ret tt
  | _ => do! call_bool id (widget_selectItems [v]) in ret tt
  end.

(** The body of the loop over [vars] in [loadQueryFromHash]. *)
Definition load_var (v : string) : MM unit :=
  if String.eqb (Js.substring 0 3 v) "fq=" then
    let item := FilterQueryItem_parseHash env (Js.drop 3 v) in
    select_if_present (fq_widgetId item) (fq_value item)
  else if String.eqb (Js.substring 0 2 v) "q=" then
    let item := QueryItem_parseHash env (Js.drop 2 v) in
    select_if_present "text" (qi_value item)
  else if String.eqb (Js.substring 0 6 v) "start=" then
    modify (fun st => set_start st (Js.parseInt (Js.drop 6 v)))
  else ret tt.

Definition loadQueryFromHash : MM unit :=
  let! len := gets (fun st => String.length (location_hash st)) in
  do! (if Nat.eqb len 0 then ret tt
       else for_in_widgets (fun widgetId _ => call widgetId widget_deselectAll) tt) in
  let! hash := gets (fun st => Js.drop 1 (location_hash st)) in
  let vars := Js.split "&" hash in
  for_in vars (fun v _ => load_var v) tt.

End Manager.

(** ** Sample collaborators

    The widget classes, the item codecs and [String.prototype.urlencode]
    are not part of AbstractManager.js.  The instances below follow what is
    documented of them; they are used to run the manager on concrete
    inputs. *)

Module Sample.

Definition hex_digit (n : nat) : ascii :=
  ascii_of_nat (if Nat.ltb n 10 then 48 + n else 55 + n).

(** Characters [encodeURIComponent] leaves alone. *)
Definition unreserved (c : ascii) : bool :=
  let n := nat_of_ascii c in
  (Nat.leb 48 n && Nat.leb n 57) || (Nat.leb 65 n && Nat.leb n 90)
  || (Nat.leb 97 n && Nat.leb n 122)
  || match n with
     | 33 | 39 | 40 | 41 | 42 | 45 | 46 | 95 | 126 => true
     | _ => false
     end.

Fixpoint percent_encode (s : string) : string :=
  match s with
  | EmptyString => EmptyString
  | String c s' =>
      if unreserved c then String c (percent_encode s')
      else
        let n := nat_of_ascii c in
        String "%" (String (hex_digit (n / 16)) (String (hex_digit (n mod 16))
          (percent_encode s')))
  end.

Definition hex_value (c : ascii) : option nat :=
  match Js.digit_value c with
  | Some d => if (d <? 16)%Z then Some (Z.to_nat d) else None
  | None => None
  end.

Fixpoint percent_decode (s : string) : string :=
  match s with
  | String "%" (String a (String b s')) =>
      match hex_value a, hex_value b with
      | Some x, Some y => String (ascii_of_nat (16 * x + y)) (percent_decode s')
      | _, _ => String "%" (String a (String b (percent_decode s')))
      end
  | String c s' => String c (percent_decode s')
  | EmptyString => EmptyString
  end.

(** Modelled from the spec: the item codecs and [urlencode].  Values are
    percent-encoded unless [skip] is set; a term is sent and kept in the
    hash as its value, a filter is sent as [field:value] and kept in the
    hash together with the id of its widget; the browser keeps a fragment as
    it is written. *)
Definition env : Env :=
  {| urlencode := fun skip s => if skip then s else percent_encode s;
     QueryItem_toSolr := fun skip i =>
       if skip then qi_value i else percent_encode (qi_value i);
     QueryItem_toHash := fun i => percent_encode (qi_value i);
     QueryItem_parseHash := fun s => {| qi_value := percent_decode s |};
     FilterQueryItem_toSolr := fun skip i =>
       let s := fq_field i +:+ ":" +:+ fq_value i in
       if skip then s else percent_encode s;
     FilterQueryItem_toHash := fun i =>
       percent_encode (fq_widgetId i) +:+ ":" +:+ percent_encode (fq_field i)
         +:+ ":" +:+ percent_encode (fq_value i);
     FilterQueryItem_parseHash := fun s =>
       match Js.split ":" s with
       | [w; f; v] =>
           {| fq_widgetId := percent_decode w; fq_field := percent_decode f;
              fq_value := percent_decode v |}
       | _ => {| fq_widgetId := ""; fq_field := ""; fq_value := percent_decode s |}
       end;
     url_fragment := fun s => s |}.

(** Modelled from the spec: a widget, which is "identified by a unique
    string id" and "holds its own internal selection state".  It has either
    no field (a text widget) or the field it facets on. *)
Record widget : Type := mkWidget {
  id : string;
  field : option string;
  selection : list string;
}.

(** Modelled from the spec: the mutators, which "report whether state
    actually changed".  [select] adds the given items, [deselect] removes
    them, [clear] removes all items. *)
Definition select (items : list string) (w : widget) : bool * widget :=
  (negb (Nat.eqb (length items) 0),
   mkWidget (id w) (field w) (selection w ++ items)).

Definition deselect (items : list string) (w : widget) : bool * widget :=
  let kept := filter (fun x => x ∉ items) (selection w) in
  (negb (Nat.eqb (length kept) (length (selection w))),
   mkWidget (id w) (field w) kept).

Definition clear (w : widget) : widget := mkWidget (id w) (field w) [].

(** Modelled from the spec: [alterQuery].  A text widget "appends its
    selected terms to q"; a facet widget appends its field to [fields] and
    one filter per selected value to [fq]. *)
Definition alter (w : widget) (d : QueryData) : QueryData :=
  match field w with
  | None =>
      mkQueryData (d_fields d) (d_dates d)
        (d_q d ++ map (fun v => {| qi_value := v |}) (selection w))
        (d_fl d) (d_fq d) (d_start d) (d_rows d) (d_sort d)
  | Some f =>
      mkQueryData (d_fields d ++ [f]) (d_dates d) (d_q d) (d_fl d)
        (d_fq d ++ map (fun v => {| fq_widgetId := id w; fq_field := f;
                                    fq_value := v |}) (selection w))
        (d_start d) (d_rows d) (d_sort d)
  end.

#[global] Instance widget_ops : Widget widget :=
  {| widget_id := id;
     widget_afterAdditionToManager := fun w => w;
     widget_selectItems := select;
     widget_deselectItems := deselect;
     widget_deselectAll := clear;
     widget_alterQuery := alter;
     widget_displayQuery := fun _ w => w;
     widget_startAnimation := fun w => w |}.

#[global] Instance widget_selection : SelectionWidget widget :=
  {| selected := selection;
     selected_deselectAll := fun _ => eq_refl;
     selected_selectItems := fun items w =>
       Permutation_refl (selection w ++ items) |}.

(** Modelled from the spec: a transport, which serialises the query with
    [buildQueryString] and hands the string to the network; every widget
    passes [canAddWidget]. *)
Definition hooks : Hooks widget :=
  {| canAddWidget := fun _ => true;
     executeRequest := fun queryObj =>
       let! _ := buildQueryString env queryObj false in ret tt |}.

(** A manager whose base arrays live at locations 1 (q), 2 (fq), 3 (fl). *)
Definition heap0 (q : list QueryItem) (fq : list FilterQueryItem)
  (fl : list string) : Heap :=
  {| h_str := {[ 3%positive := fl ]};
     h_date := ∅;
     h_q := {[ 1%positive := q ]};
     h_fq := {[ 2%positive := fq ]} |}.

Definition manager (q : list QueryItem) (fq : list FilterQueryItem)
  (fl : list string) (ws : registry widget) : State widget :=
  {| filters_q := 1%positive; filters_fq := 2%positive;
     filters_fl := 3%positive;
     hlFl := "body"; widgets := ws; start := Js.Int 0; hash := "";
     heap := heap0 q fq fl; fragment := "" |}.

Definition text_widget (sel : list string) : widget := mkWidget "text" None sel.

(** Base filters [{q: [], fq: [], fl: ["title"]}], one widget [text] on
    which the term [cats] is selected. *)
Definition cats_state : State widget :=
  manager [] [] ["title"] [("text", text_widget ["cats"])].

(** A facet widget [tags] with [x] selected and a text widget with [old]
    selected. *)
Definition two_widgets : State widget :=
  manager [] [] []
    [("tags", mkWidget "tags" (Some "tag") ["x"]); ("text", text_widget ["old"])].

(** A text widget registered under [search], with [cats] selected. *)
Definition search_state : State widget :=
  manager [] [] [] [("search", mkWidget "search" None ["cats"])].

(** The query object that [buildQuery 0] returns, and the state it leaves. *)
Definition built (st : State widget) : QueryObj * State widget :=
  match buildQuery (Js.Int 0) st with
  | Ok o st' => (o, st')
  | Err _ st' => (mkQueryObj 1%positive 1%positive 1%positive 1%positive 1%positive
                             Js.NaN Js.NaN None, st')
  end.

(** A manager without widgets, at start offset 0. *)
Definition bare : State widget := manager [] [] [] [].

End Sample.

(** * Specification vocabulary *)

(** Concatenation of a list of pieces. *)
Definition cat (l : list string) : string := fold_right String.append "" l.

(** [s] contains the character [c]. *)
Fixpoint has_char (c : ascii) (s : string) : bool :=
  match s with
  | EmptyString => false
  | String x s' => Ascii.eqb x c || has_char c s'
  end.

Definition value {S A} (r : Result S A) : option A :=
  match r with Ok a _ => Some a | Err _ _ => None end.

(** ** The query string, parameter by parameter *)

Section QueryStringSpec.
Variable env : Env.

(** The four parameters of one date facet. *)
Definition date_params (skip : bool) (d : DateFacet) : string :=
  "&facet.date=" +:+ urlencode env skip (date_field d)
  +:+ "&f." +:+ date_field d +:+ ".facet.date.start="
  +:+ urlencode env skip (date_start d)
  +:+ "&f." +:+ date_field d +:+ ".facet.date.end="
  +:+ urlencode env skip (date_end d)
  +:+ "&f." +:+ date_field d +:+ ".facet.date.gap="
  +:+ urlencode env skip (date_gap d).

(** The value of [q=] read as "the encoded items joined by a space". *)
Definition q_joined (skip : bool) (q : list QueryItem) : string :=
  Js.join " " (map (QueryItem_toSolr env skip) q).

(** The value of [q=] with a space after every encoded item. *)
Definition q_spaced (skip : bool) (q : list QueryItem) : string :=
  cat (map (fun i => QueryItem_toSolr env skip i +:+ " ") q).

(** The parameters in the documented order, for a given value of [q=]. *)
Definition query_string (hl : string) (skip : bool) (d : QueryData)
  (qvalue : string) : string :=
  "facet=true&facet.limit=40&facet.sort=true&facet.mincount=1&hl=true"
  +:+ cat (map (fun f => "&facet.field=" +:+ urlencode env skip f) (d_fields d))
  +:+ cat (map (date_params skip) (d_dates d))
  +:+ cat (map (fun i => "&fq=" +:+ FilterQueryItem_toSolr env skip i) (d_fq d))
  +:+ "&q=" +:+ qvalue
  +:+ "&fl=" +:+ Js.join "," (d_fl d ++ ["id"])
  +:+ "&rows=" +:+ Js.toString (d_rows d)
  +:+ "&start=" +:+ Js.toString (d_start d)
  +:+ (if truthy (d_sort d) then "&sort=" +:+ default "" (d_sort d) else "")
  +:+ "&hl.fl=" +:+ hl.

(** The heap after [queryObj.fl.push('id')]. *)
Definition pushed_id (h : Heap) (o : QueryObj) : Heap :=
  with_str h (push (h_str h) (qo_fl o) "id").
End QueryStringSpec.

(** ** Building a query *)

(** The query object [o] as it was when allocated: the same arrays, start
    [s], rows 0, no sort. *)
Definition at_birth (o : QueryObj) (s : Js.Number) : QueryObj :=
  mkQueryObj (qo_fields o) (qo_dates o) (qo_q o) (qo_fl o) (qo_fq o)
             s (Js.Int 0) None.

Section BuildQuerySpec.
Context {W : Type} `{Widget W}.

(** The contents of the query object before any widget has altered it:
    the base filters, the start offset, no rows, no facets. *)
Definition base_query (st : State W) (s : Js.Number) : QueryData :=
  {| d_fields := [];
     d_dates := [];
     d_q := read (h_q (heap st)) (filters_q st);
     d_fl := read (h_str (heap st)) (filters_fl st);
     d_fq := read (h_fq (heap st)) (filters_fq st);
     d_start := s;
     d_rows := Js.Int 0;
     d_sort := None |}.

(** [alterQuery] of every widget, once each, in the order of the registry. *)
Definition alter_all (ws : registry W) (d : QueryData) : QueryData :=
  fold_left (fun d e => widget_alterQuery e.2 d) ws d.

(** The same on a query object in the heap. *)
Definition alter_all_in (ws : registry W) (h : Heap) (o : QueryObj)
  : Heap * QueryObj :=
  fold_left (fun ho e =>
               assign ho.1 ho.2 (widget_alterQuery e.2 (contents ho.1 ho.2)))
            ws (h, o).

(** The query object has its own arrays: none of them is live in [h], and
    [fields] and [fl], which hold strings both, are two arrays. *)
Definition fresh_in (h : Heap) (o : QueryObj) : Prop :=
  (qo_fields o ∉ dom (h_str h)) /\ (qo_fl o ∉ dom (h_str h)) /\
  qo_fields o <> qo_fl o /\
  (qo_dates o ∉ dom (h_date h)) /\ (qo_q o ∉ dom (h_q h)) /\
  (qo_fq o ∉ dom (h_fq h)).

(** The base filter arrays of the manager are live. *)
Definition filters_live (st : State W) : Prop :=
  (filters_q st ∈ dom (h_q (heap st))) /\
  (filters_fq st ∈ dom (h_fq (heap st))) /\
  (filters_fl st ∈ dom (h_str (heap st))).

(** The base filters as a reader of [this.filters] finds them. *)
Definition base_filters (st : State W)
  : list QueryItem * list FilterQueryItem * list string :=
  (read (h_q (heap st)) (filters_q st),
   read (h_fq (heap st)) (filters_fq st),
   read (h_str (heap st)) (filters_fl st)).
(** The allocation phase of [buildQuery]. *)
Definition new_heap (st : State W) : Heap :=
  let h := heap st in
  {| h_str := (slice (alloc (h_str h) []).2 (filters_fl st)).2;
     h_date := (alloc (h_date h) []).2;
     h_q := (slice (h_q h) (filters_q st)).2;
     h_fq := (slice (h_fq h) (filters_fq st)).2 |}.

Definition new_query (st : State W) (s : Js.Number) : QueryObj :=
  let h := heap st in
  {| qo_fields := (alloc (h_str h) []).1;
     qo_dates := (alloc (h_date h) []).1;
     qo_q := (slice (h_q h) (filters_q st)).1;
     qo_fl := (slice (alloc (h_str h) []).2 (filters_fl st)).1;
     qo_fq := (slice (h_fq h) (filters_fq st)).1;
     qo_start := s; qo_rows := Js.Int 0; qo_sort := None |}.

End BuildQuerySpec.

(** ** Decoding the fragment, as documented *)

Section DecodeSpec.
Context {W : Type} `{Widget W}.
Variable env : Env.

(** A value routed to the selection mutator of the widget registered under
    [id]; dropped when no such widget is registered. *)
Definition route (id v : string) (ws : registry W) : registry W :=
  match lookup_widget id ws with
  | Some w => update_widget id (widget_selectItems [v] w).2 ws
  | None => ws
  end.

(** One segment, dispatched by its prefix. *)
Definition dispatch (seg : string) (st : State W) : State W :=
  if String.prefix "fq=" seg then
    let item := FilterQueryItem_parseHash env (Js.drop 3 seg) in
    set_widgets st (route (fq_widgetId item) (fq_value item) (widgets st))
  else if String.prefix "q=" seg then
    let item := QueryItem_parseHash env (Js.drop 2 seg) in
    set_widgets st (route "text" (qi_value item) (widgets st))
  else if String.prefix "start=" seg then
    set_start st (Js.parseInt (Js.drop 6 seg))
  else st.

(** A segment that cannot be routed or dropped: a filter whose decoded
    widget id is not registered and is a name that every object inherits. *)
Definition names_inherited (ws : registry W) (seg : string) : bool :=
  String.prefix "fq=" seg &&
  let id := fq_widgetId (FilterQueryItem_parseHash env (Js.drop 3 seg)) in
  Js.inherited id &&
  match lookup_widget id ws with Some _ => false | None => true end.

Definition routable (ws : registry W) (seg : string) : Prop :=
  names_inherited ws seg = false.

(** Every widget reset to the empty selection. *)
Definition reset_all (ws : registry W) : registry W :=
  map (fun e => (e.1, widget_deselectAll e.2)) ws.

(** The reset that precedes the decoding: if and only if the fragment is
    not empty. *)
Definition reset_if_navigated (st : State W) : State W :=
  match fragment st with
  | EmptyString => st
  | String _ _ => set_widgets st (reset_all (widgets st))
  end.

(** Segments dispatched from left to right. *)
Definition dispatch_all (segs : list string) (st : State W) : State W :=
  fold_left (fun st seg => dispatch seg st) segs st.

(** Reset if and only if the fragment is not empty, then split on [&] and
    dispatch the segments from left to right. *)
Definition decode (st : State W) : State W :=
  dispatch_all (Js.split "&" (fragment st)) (reset_if_navigated st).
End DecodeSpec.

(** ** A request cycle *)

(** What a request cycle does with the query object once it is built: it is
    serialised (for display, for the transport) and it is saved to the
    hash, any number of times in any order. *)
Inductive CycleOp : Type :=
  | Serialize (skip : bool)
  | SaveHash.

Section Cycle.
Context {W : Type} `{Widget W}.
Variable env : Env.

Definition run_op (o : QueryObj) (op : CycleOp) : M (State W) unit :=
  match op with
  | Serialize skip => let! _ := buildQueryString env o skip in ret tt
  | SaveHash => saveQueryToHash env o
  end.

Definition run_ops (o : QueryObj) (ops : list CycleOp) : M (State W) unit :=
  for_in ops (fun op _ => run_op o op) tt.
End Cycle.

(** ** Selections *)

Section SelectionSpec.
Context {W : Type} `{SelectionWidget W}.

(** What the loop of [selectOnlyItems] does to the widget under [id]. *)
Definition keep_or_clear (keepId : string) (items : list string)
  (id : string) (w : W) : W :=
  if String.eqb id keepId then (widget_selectItems items w).2
  else widget_deselectAll w.

(** Everything that is selected, over all widgets. *)
Definition all_selected (ws : registry W) : list string :=
  concat (map (fun e => selected e.2) ws).
End SelectionSpec.

(** ** The hash, segment by segment *)

Section HashSpec.
Variable env : Env.

(** The segments of the hash of a query: filters, terms, start offset. *)
Definition segments (d : QueryData) : list string :=
  map (fun i => "fq=" +:+ FilterQueryItem_toHash env i) (d_fq d)
  ++ map (fun i => "q=" +:+ QueryItem_toHash env i) (d_q d).

Definition start_segment (d : QueryData) : string :=
  "start=" +:+ Js.toString (d_start d).

(** The fragment written for a query: every filter and term segment
    followed by [&], then the start segment. *)
Definition fragment_of (d : QueryData) : string :=
  cat (map (fun s => s +:+ "&") (segments d)) +:+ start_segment d.

(** An item codec that round-trips on [i], into text without [&]. *)
Definition fq_roundtrips (i : FilterQueryItem) : Prop :=
  FilterQueryItem_parseHash env (FilterQueryItem_toHash env i) = i /\
  has_char "&" (FilterQueryItem_toHash env i) = false.

Definition q_roundtrips (i : QueryItem) : Prop :=
  QueryItem_parseHash env (QueryItem_toHash env i) = i /\
  has_char "&" (QueryItem_toHash env i) = false.

(** Where the values of a query are routed on decoding. *)
Definition routes (d : QueryData) : list (string * string) :=
  map (fun i => (fq_widgetId i, fq_value i)) (d_fq d)
  ++ map (fun i => ("text", qi_value i)) (d_q d).
End HashSpec.

(** * The rest of the manager *)

(** ** Start-up and the hash watcher *)

(** What the timer callback asks of the browser: nothing, or
    [history.back()]. *)
Inductive Navigation : Type :=
  | Stay
  | Back.

Section Watcher.
Context {W : Type} `{Widget W}.
Variable env : Env.
Variable hooks : Hooks W.

(** The function [init] hands to [window.setInterval]: the browser calls
    it every 250 ms. *)
Definition tick : M (State W) Navigation :=
  let! len := gets (fun st => String.length (location_hash st)) in
  if negb (Nat.eqb len 0) then
    let! differs :=
      gets (fun st => negb (String.eqb (hash st) (location_hash st))) in
    if differs then
      do! loadQueryFromHash env in
      do! doInitialRequest env hooks in
      ret Stay
    else ret Stay
  else ret Back.

(** [init]: the hash is loaded and the first request is made; the timer
    then runs [tick]. *)
Definition init : M (State W) unit :=
  do! loadQueryFromHash env in
  doInitialRequest env hooks.

(** Widgets registered one after the other. *)
Definition register_all (ws : list W) : M (State W) unit :=
  for_in ws (fun widget _ => addWidget hooks widget) tt.
End Watcher.

(** ** Registration and enumeration order *)

Section EnumerationSpec.
Context {W : Type} `{Widget W}.

(** The entry that [addWidget] stores for a widget. *)
Definition entry (w : W) : string * W :=
  (widget_id w, widget_afterAdditionToManager w).

Definition is_index (w : W) : bool :=
  match Js.array_index (widget_id w) with Some _ => true | None => false end.

Definition index_of (w : W) : N := default 0%N (Js.array_index (widget_id w)).

(** [w] put into a list that ascends by index, before the first widget of
    a larger or equal index. *)
Fixpoint insert_by_index (w : W) (l : list W) : list W :=
  match l with
  | [] => [w]
  | x :: l' =>
      if (index_of x <? index_of w)%N then x :: insert_by_index w l'
      else w :: l
  end.

Definition sort_by_index (l : list W) : list W :=
  fold_left (fun sorted w => insert_by_index w sorted) l [].

(** The order in which [for (id in this.widgets)] visits widgets that were
    registered in the order [l]: those whose id is an array index, by
    ascending index, then the others as registered. *)
Definition for_in_order (l : list W) : list W :=
  sort_by_index (List.filter is_index l)
  ++ List.filter (fun w => negb (is_index w)) l.

End EnumerationSpec.

(** ** Results *)

(** The two widget methods that [handleResult] calls; [D] is the type of
    the Solr response. *)
Class ResultWidget (W D : Type) `{Widget W} : Type := {
  widget_handleResult : D -> W -> W;
  widget_endAnimation : W -> W;
}.

(** The manager together with the property [responseCache], which
    [handleResult] adds to it. *)
Record Page (W D : Type) : Type := mkPage {
  page_manager : State W;
  responseCache : option D;
}.
Arguments mkPage {W D}.
Arguments page_manager {W D}.
Arguments responseCache {W D}.

(** A method of the manager run on the page. *)
Definition on_manager {W D A} (m : M (State W) A) : M (Page W D) A :=
  fun p =>
    match m (page_manager p) with
    | Ok a st => Ok a (mkPage st (responseCache p))
    | Err e st => Err e (mkPage st (responseCache p))
    end.

Section Results.
Context {W D : Type} `{ResultWidget W D}.

Definition handleResult (data : D) : M (Page W D) unit :=
  do! modify (fun p => mkPage (page_manager p) (Some data)) in
  do! on_manager
        (for_in_widgets
           (fun widgetId _ => call widgetId (widget_handleResult data)) tt) in
  on_manager
    (for_in_widgets (fun i _ => call i widget_endAnimation) tt).

(** The callback handed to the transport. *)
Definition jsonCallback : D -> M (Page W D) unit :=
  fun data => handleResult data.
End Results.

(** ** Vocabulary for the properties of the rest *)

(** A transport that returns normally and leaves the term and filter
    arrays and the start offset as they are. *)
Definition transport_frame {W} (hooks : Hooks W) : Prop :=
  forall (o : QueryObj) (st : State W),
    exists st',
      executeRequest hooks o st = Ok tt st' /\
      h_q (heap st') = h_q (heap st) /\
      h_fq (heap st') = h_fq (heap st) /\
      start st' = start st.

Section DeliverySpec.
Context {W : Type}.
Variable env : Env.

(** The widget id and the value that a segment of the fragment carries,
    if it is a filter or a term. *)
Definition segment_target (seg : string) : option (string * string) :=
  if String.prefix "fq=" seg then
    let item := FilterQueryItem_parseHash env (Js.drop 3 seg) in
    Some (fq_widgetId item, fq_value item)
  else if String.prefix "q=" seg then
    Some ("text", qi_value (QueryItem_parseHash env (Js.drop 2 seg)))
  else None.

(** The values of the segments whose widget is registered in [ws]. *)
Definition delivered (ws : registry W) (segs : list string) : list string :=
  flat_map (fun seg =>
              match segment_target seg with
              | Some (id, v) =>
                  match lookup_widget id ws with
                  | Some _ => [v]
                  | None => []
                  end
              | None => []
              end) segs.
End DeliverySpec.

(** How many of the operations of a request cycle serialise the query. *)
Fixpoint serialisations (ops : list CycleOp) : nat :=
  match ops with
  | [] => 0
  | Serialize _ :: ops' => S (serialisations ops')
  | SaveHash :: ops' => serialisations ops'
  end.

(** Two states that differ at most in the widgets' own state and in the
    start offset: the same widget ids in the same order, the same base
    filters, heap, cached hash and fragment. *)
Definition same_but_selection {W} (st st' : State W) : Prop :=
  map fst (widgets st') = map fst (widgets st) /\
  filters_q st' = filters_q st /\
  filters_fq st' = filters_fq st /\
  filters_fl st' = filters_fl st /\
  hlFl st' = hlFl st /\
  hash st' = hash st /\
  heap st' = heap st /\
  fragment st' = fragment st.

Section RequestSpec.
Context {W : Type} `{Widget W}.

(** The query object that [doRequest s] builds in [st]. *)
Definition built_object (st : State W) (s : Js.Number) : QueryObj :=
  (alter_all_in (widgets st) (new_heap st) (new_query st s)).2.

(** The state in which [doRequest s] calls the transport: the query is
    built, and every widget has started its animation and displayed the
    query. *)
Definition announced (st : State W) (s : Js.Number) : State W :=
  let h := (alter_all_in (widgets st) (new_heap st) (new_query st s)).1 in
  set_widgets (set_heap st h)
    (map (fun e => (e.1, widget_displayQuery (contents h (built_object st s))
                           (widget_startAnimation e.2)))
         (widgets st)).
End RequestSpec.

(** ** Sample collaborators for results *)

(** Modelled from the spec: a widget that shows nothing of a result and
    has no animation; the response is a list of document ids. *)
#[global] Instance sample_results : ResultWidget Sample.widget (list string) :=
  {| widget_handleResult := fun _ w => w;
     widget_endAnimation := fun w => w |}.

(** The arrays of the query object are live in [h]. *)
Definition live_in (h : Heap) (o : QueryObj) : Prop :=
  (qo_fields o ∈ dom (h_str h)) /\ (qo_fl o ∈ dom (h_str h)) /\
  (qo_dates o ∈ dom (h_date h)) /\ (qo_q o ∈ dom (h_q h)) /\
  (qo_fq o ∈ dom (h_fq h)).

(** * Properties *)

(** ** The JavaScript primitives on examples *)

Example parseInt_20 : Js.parseInt "20" = Js.Int 20. Proof. reflexivity. Qed.
Example parseInt_12abc : Js.parseInt "12abc" = Js.Int 12. Proof. reflexivity. Qed.
Example parseInt_neg : Js.parseInt " -7" = Js.Int (-7). Proof. reflexivity. Qed.
Example parseInt_hex : Js.parseInt "0x1f" = Js.Int 31. Proof. reflexivity. Qed.
Example parseInt_abc : Js.parseInt "abc" = Js.NaN. Proof. reflexivity. Qed.
Example parseInt_empty : Js.parseInt "" = Js.NaN. Proof. reflexivity. Qed.
Example split_empty : Js.split "&" "" = [""]. Proof. reflexivity. Qed.
Example split_three : Js.split "&" "fq=a&q=b&start=0" = ["fq=a"; "q=b"; "start=0"].
Proof. reflexivity. Qed.
Example split_trailing : Js.split "&" "a&" = ["a"; ""]. Proof. reflexivity. Qed.
Example substring_short : Js.substring 0 3 "q=" = "q=". Proof. reflexivity. Qed.
Example toString_neg : Js.toString (Js.Int (-120)) = "-120". Proof. reflexivity. Qed.
Example toString_2_53 : Js.toString (Js.Int (2 ^ 53)) = "9007199254740992".
Proof. vm_compute. reflexivity. Qed.
Example toString_2_60 : Js.toString (Js.Int (2 ^ 60)) = "1152921504606847000".
Proof. vm_compute. reflexivity. Qed.
Example toString_1e21 : Js.toString (Js.Int (10 ^ 21)) = "1e+21".
Proof. vm_compute. reflexivity. Qed.
Example toString_2_70 : Js.toString (Js.Int (2 ^ 70)) = "1.1805916207174113e+21".
Proof. vm_compute. reflexivity. Qed.
Example toString_max :
  Js.toString (Js.Int ((2 ^ 53 - 1) * 2 ^ 971)) = "1.7976931348623157e+308".
Proof. vm_compute. reflexivity. Qed.
Example representable_2_53_1 : Js.representable (2 ^ 53 + 1) = false.
Proof. vm_compute. reflexivity. Qed.
Example representable_1e21 : Js.representable (10 ^ 21) = true.
Proof. vm_compute. reflexivity. Qed.
Example parseInt_1e21 : Js.parseInt "1e+21" = Js.Int 1. Proof. reflexivity. Qed.
Example parseInt_rounds : Js.parseInt "9007199254740993" = Js.Int (2 ^ 53).
Proof. vm_compute. reflexivity. Qed.
Example array_index_10 : Js.array_index "10" = Some 10%N. Proof. reflexivity. Qed.
Example array_index_01 : Js.array_index "01" = None. Proof. reflexivity. Qed.
Example array_index_tags : Js.array_index "tags" = None. Proof. reflexivity. Qed.
Example inherited_constructor : Js.inherited "constructor" = true.
Proof. reflexivity. Qed.
Example inherited_text : Js.inherited "text" = false. Proof. reflexivity. Qed.


(** ** Strings *)

Lemma append_assoc (a b c : string) : (a +:+ b) +:+ c = a +:+ (b +:+ c).
Proof. induction a as [|x a IH]; simpl; [reflexivity | now rewrite IH]. Qed.

Lemma append_nil_r (a : string) : a +:+ "" = a.
Proof. induction a as [|x a IH]; simpl; [reflexivity | now rewrite IH]. Qed.

Lemma length_append (a b : string) :
  String.length (a +:+ b) = String.length a + String.length b.
Proof. induction a as [|x a IH]; simpl; [reflexivity | now rewrite IH]. Qed.


Lemma cat_app (l1 l2 : list string) : cat (l1 ++ l2) = cat l1 +:+ cat l2.
Proof.
  induction l1 as [|x l1 IH]; simpl; [reflexivity |].
  now rewrite IH, append_assoc.
Qed.

(** A loop [for (i in a) acc += g(a[i])] appends one piece per element. *)
Lemma fold_left_append {A} (f : string -> A -> string) (g : A -> string)
  (l : list A) (init : string) :
  (forall acc x, f acc x = acc +:+ g x) ->
  fold_left f l init = init +:+ cat (map g l).
Proof.
  intros Hf. revert init.
  induction l as [|x l IH]; intros init; simpl.
  - now rewrite append_nil_r.
  - now rewrite IH, Hf, append_assoc.
Qed.


Lemma has_char_append c a b :
  has_char c (a +:+ b) = has_char c a || has_char c b.
Proof.
  induction a as [|x a IH]; simpl; [reflexivity |].
  now rewrite IH, orb_assoc.
Qed.

Lemma split_free sep s : has_char sep s = false -> Js.split sep s = [s].
Proof.
  induction s as [|c s IH]; simpl; [reflexivity |].
  intros Hc. apply orb_false_iff in Hc as [Hc Hs].
  rewrite Hc, (IH Hs). reflexivity.
Qed.

Lemma split_nonempty sep s : Js.split sep s <> [].
Proof.
  destruct s as [|c s]; simpl; [discriminate |].
  destruct (Ascii.eqb c sep); [discriminate |].
  destruct (Js.split sep s); discriminate.
Qed.

(** Splitting gives back a first piece that is free of the separator. *)
Lemma split_append sep a b :
  has_char sep a = false ->
  Js.split sep (a +:+ String sep b) = a :: Js.split sep b.
Proof.
  induction a as [|c a IH]; simpl.
  - intros _. now rewrite Ascii.eqb_refl.
  - intros Hc. apply orb_false_iff in Hc as [Hc Ha].
    rewrite Hc, (IH Ha). reflexivity.
Qed.

Lemma drop_append (p s : string) : Js.drop (String.length p) (p +:+ s) = s.
Proof. induction p as [|c p IH]; simpl; [reflexivity | exact IH]. Qed.

(** [s.substring(0, n) == p], for [p] of length [n], is the prefix test. *)
Lemma substring_prefix (p s : string) :
  String.eqb (Js.substring 0 (String.length p) s) p = String.prefix p s.
Proof.
  unfold Js.substring. rewrite Nat.max_0_l, Nat.min_0_l, Nat.sub_0_r. simpl.
  revert s. induction p as [|c p IH]; intros s; simpl.
  - now destruct s.
  - destruct s as [|x s]; simpl; [reflexivity |].
    destruct (Ascii.eqb_spec x c) as [->|Hne].
    + rewrite <- IH. destruct (ascii_dec c c); [reflexivity | congruence].
    + destruct (ascii_dec c x); [congruence | reflexivity].
Qed.

Lemma prefix_append (p s : string) : String.prefix p (p +:+ s) = true.
Proof.
  induction p as [|c p IH]; simpl; [now destruct s |].
  destruct (ascii_dec c c); [exact IH | congruence].
Qed.

(** ** The array store *)

Section StoreFacts.
Context {A : Type}.
Implicit Types (s : store A) (l : loc) (v : list A).

Lemma read_write_eq s l v : read (write s l v) l = v.
Proof. unfold read, write. now rewrite lookup_insert_eq. Qed.

Lemma read_write_ne s l l' v : l <> l' -> read (write s l v) l' = read s l'.
Proof. intros Hne. unfold read, write. now rewrite lookup_insert_ne. Qed.

Lemma alloc_fresh s v : (alloc s v).1 ∉ dom s.
Proof. unfold alloc. simpl. apply is_fresh. Qed.

Lemma alloc_read s v : read (alloc s v).2 (alloc s v).1 = v.
Proof. unfold alloc. simpl. apply read_write_eq. Qed.

(** Allocation leaves the live arrays alone. *)
Lemma alloc_frame s v l : l ∈ dom s -> read (alloc s v).2 l = read s l.
Proof.
  intros Hl. unfold alloc. simpl. apply read_write_ne.
  intros <-. now apply (is_fresh (dom s)).
Qed.

Lemma alloc_dom s v : dom (alloc s v).2 = {[(alloc s v).1]} ∪ dom s.
Proof. unfold alloc. simpl. apply dom_insert_L. Qed.

Lemma read_push_eq s l x : read (push s l x) l = read s l ++ [x].
Proof. unfold push. apply read_write_eq. Qed.

Lemma read_push_ne s l l' x : l <> l' -> read (push s l x) l' = read s l'.
Proof. unfold push. apply read_write_ne. Qed.
End StoreFacts.

(** ** The registry *)

Section RegistryFacts.
Context {W : Type}.
Implicit Types (ws : registry W) (id : string) (w : W).

Lemma lookup_widget_None id ws :
  lookup_widget id ws = None <-> ~ In id (map fst ws).
Proof.
  induction ws as [|[k w] ws IH]; simpl; [tauto |].
  destruct (String.eqb_spec k id) as [->|Hne].
  - split; [discriminate | intros Hn; exfalso; apply Hn; now left].
  - rewrite IH. split; [intros Hn [?|?]; [congruence | tauto] | tauto].
Qed.

Lemma update_widget_keys id w ws :
  map fst (update_widget id w ws) = map fst ws.
Proof.
  induction ws as [|[k w'] ws IH]; simpl; [reflexivity |].
  destruct (String.eqb k id); simpl; [reflexivity | now rewrite IH].
Qed.


(** An id that is not an array index is enumerated after the ids already
    present; an id already present keeps its place. *)
Lemma put_widget_keys id w ws :
  Js.array_index id = None ->
  map fst (put_widget id w ws) =
  match lookup_widget id ws with
  | Some _ => map fst ws
  | None => map fst ws ++ [id]
  end.
Proof.
  intros Hi. unfold put_widget. destruct (lookup_widget id ws).
  - apply update_widget_keys.
  - rewrite Hi. now rewrite map_app.
Qed.



End RegistryFacts.


(** ** The query string *)

Lemma buildQueryString_eq {W} env (st : State W) (o : QueryObj) (skip : bool) :
  buildQueryString env o skip st =
  Ok (query_string env (hlFl st) skip (contents (heap st) o)
        (q_spaced env skip (read (h_q (heap st)) (qo_q o))))
     (set_heap st (pushed_id (heap st) o)).
Proof.
  unfold buildQueryString, query_string, q_spaced, pushed_id. cbv zeta.
  f_equal.
  rewrite (fold_left_append _
    (fun f => "&facet.field=" +:+ urlencode env skip f)) by reflexivity.
  rewrite (fold_left_append _ (date_params env skip))
    by (intros; unfold date_params; now rewrite !append_assoc).
  rewrite (fold_left_append _
    (fun i => "&fq=" +:+ FilterQueryItem_toSolr env skip i)) by reflexivity.
  rewrite (fold_left_append _
    (fun i => QueryItem_toSolr env skip i +:+ " ")) by reflexivity.
  unfold with_str, contents. cbn [h_str h_date h_q h_fq d_fields d_dates d_q
    d_fl d_fq d_start d_rows d_sort].
  rewrite read_push_eq.
  destruct (truthy (qo_sort o)); rewrite !append_assoc; reflexivity.
Qed.

(** C1, as the code has it: [buildQueryString] returns the fixed prefix,
    one [facet.field=] per entry of [fields], the four parameters of every
    entry of [dates], one [fq=] per entry of [fq], a single [q=] whose value
    is every item's backend encoding followed by a space (the empty string
    for an empty [q]), [fl=] with [id] appended to the field list before the
    comma join, [rows=], [start=], [sort=] only for a defined, non-empty
    sort, and [hl.fl=] with the highlight field, in this order. *)
Theorem buildQueryString_order {W} env (st : State W) (o : QueryObj)
  (skip : bool) :
  value (buildQueryString env o skip st) =
    Some (query_string env (hlFl st) skip (contents (heap st) o)
            (q_spaced env skip (d_q (contents (heap st) o))))
  /\ q_spaced env skip [] = "".
Proof.
  split; [| reflexivity].
  rewrite buildQueryString_eq. reflexivity.
Qed.

(** With one term [cats] in [q], the value of [q=] is [cats] followed by a
    space, not the items joined by spaces. *)
Lemma buildQueryString_joined_counterexample :
  exists o st1 str st2,
    buildQuery (Js.Int 0) Sample.cats_state = Ok o st1 /\
    d_q (contents (heap st1) o) = [ {| qi_value := "cats" |} ] /\
    buildQueryString Sample.env o false st1 = Ok str st2 /\
    str <> query_string Sample.env (hlFl st1) false (contents (heap st1) o)
             (q_joined Sample.env false (d_q (contents (heap st1) o))).
Proof.
  eexists _, _, _, _.
  split; [vm_compute; reflexivity |].
  split; [vm_compute; reflexivity |].
  split; [vm_compute; reflexivity |].
  apply String.eqb_neq. vm_compute. reflexivity.
Qed.

Lemma join_snoc sep (l : list string) x :
  l <> [] -> Js.join sep (l ++ [x]) = Js.join sep l +:+ sep +:+ x.
Proof.
  unfold Js.join. induction l as [|y l IH]; [congruence |]. intros _.
  destruct l as [|z l]; [reflexivity |].
  change (y +:+ sep +:+ String.concat sep ((z :: l) ++ [x]) =
          (y +:+ sep +:+ String.concat sep (z :: l)) +:+ sep +:+ x).
  rewrite IH by discriminate. now rewrite !append_assoc.
Qed.

(** Two query strings that differ only in [fields] and [fl]. *)
Lemma query_string_length env hl skip d d' qv :
  d_dates d = d_dates d' -> d_fq d = d_fq d' -> d_rows d = d_rows d' ->
  d_start d = d_start d' -> d_sort d = d_sort d' ->
  String.length (query_string env hl skip d qv)
  + String.length (cat (map (fun f => "&facet.field=" +:+ urlencode env skip f)
                            (d_fields d')))
  + String.length (Js.join "," (d_fl d' ++ ["id"]))
  = String.length (query_string env hl skip d' qv)
  + String.length (cat (map (fun f => "&facet.field=" +:+ urlencode env skip f)
                            (d_fields d)))
  + String.length (Js.join "," (d_fl d ++ ["id"])).
Proof.
  intros Hd Hfq Hr Hs Hso. unfold query_string.
  rewrite Hd, Hfq, Hr, Hs, Hso, !length_append. lia.
Qed.

(** C9: [buildQueryString] pushes [id] onto the array behind [queryObj.fl].
    After one call the array ends in [id], after a second call on the same
    object in [id], [id]; the value of [fl=] and the whole string of the
    second call differ from those of the first, and the heap is not the one
    the first call started from. *)
Theorem buildQueryString_mutates_fl {W} env (st : State W) (o : QueryObj)
  (skip : bool) :
  exists s1 st1 s2 st2,
    buildQueryString env o skip st = Ok s1 st1 /\
    buildQueryString env o skip st1 = Ok s2 st2 /\
    d_fl (contents (heap st1) o) = d_fl (contents (heap st) o) ++ ["id"] /\
    d_fl (contents (heap st2) o) = d_fl (contents (heap st) o) ++ ["id"; "id"] /\
    Js.join "," (d_fl (contents (heap st1) o))
      <> Js.join "," (d_fl (contents (heap st2) o)) /\
    s1 <> s2 /\
    heap st1 <> heap st.
Proof.
  rewrite buildQueryString_eq. eexists _, _.
  rewrite buildQueryString_eq. eexists _, _.
  split; [reflexivity |]. split; [reflexivity |].
  set (h := heap st). set (h1 := pushed_id h o).
  assert (Hfl1 : d_fl (contents h1 o) = d_fl (contents h o) ++ ["id"]).
  { unfold h1, pushed_id, contents, with_str; simpl. apply read_push_eq. }
  assert (Hfl2 : d_fl (contents (pushed_id h1 o) o)
                 = d_fl (contents h o) ++ ["id"; "id"]).
  { transitivity (d_fl (contents h1 o) ++ ["id"]).
    - unfold pushed_id at 1. unfold contents, with_str; simpl.
      apply read_push_eq.
    - rewrite Hfl1, <- app_assoc. reflexivity. }
  split; [exact Hfl1 |]. split; [exact Hfl2 |]. split; [| split].
  - simpl heap. fold h. fold h1. rewrite Hfl1, Hfl2.
    change (d_fl (contents h o) ++ ["id"; "id"])
      with (d_fl (contents h o) ++ ["id"] ++ ["id"]).
    rewrite app_assoc, (join_snoc "," (d_fl (contents h o) ++ ["id"]) "id")
      by (destruct (d_fl (contents h o)); discriminate).
    intros Heq. apply (f_equal String.length) in Heq.
    rewrite !length_append in Heq.
    change (String.length ",") with 1 in Heq.
    change (String.length "id") with 2 in Heq. lia.
  - simpl heap. fold h. fold h1. intros Heq.
    apply (f_equal String.length) in Heq.
    assert (Hq : read (h_q h1) (qo_q o) = read (h_q h) (qo_q o)) by reflexivity.
    rewrite Hq in Heq.
    pose proof (query_string_length env (hlFl st) skip (contents h o)
                  (contents h1 o)
                  (q_spaced env skip (read (h_q h) (qo_q o)))
                  eq_refl eq_refl eq_refl eq_refl eq_refl) as Hlen.
    simpl hlFl in Heq.
    rewrite Hfl1 in Hlen.
    rewrite (join_snoc "," (d_fl (contents h o) ++ ["id"]) "id") in Hlen
      by (destruct (d_fl (contents h o)); discriminate).
    rewrite !length_append in Hlen.
    assert (Hfields :
      String.length (cat (map (fun f => "&facet.field=" +:+ urlencode env skip f)
                              (d_fields (contents h o))))
      <= String.length (cat (map (fun f => "&facet.field=" +:+ urlencode env skip f)
                                 (d_fields (contents h1 o))))).
    { unfold h1, pushed_id, contents, with_str; simpl.
      destruct (decide (qo_fl o = qo_fields o)) as [<-|Hne].
      - rewrite read_push_eq, map_app, cat_app, length_append. lia.
      - rewrite read_push_ne by exact Hne. lia. }
    change (String.length ",") with 1 in Hlen.
    change (String.length "id") with 2 in Hlen. lia.
  - simpl heap. fold h. fold h1. intros Heq.
    apply (f_equal (fun x => length (d_fl (contents x o)))) in Heq.
    rewrite Hfl1, length_app in Heq. simpl in Heq. lia.
Qed.

(** ** Loops over the registry *)

Section Loops.
Context {W : Type} `{Widget W}.
Implicit Types (st : State W) (ws es : registry W).

Lemma lookup_widget_unique k w ws :
  unique_ids ws -> In (k, w) ws -> lookup_widget k ws = Some w.
Proof.
  unfold unique_ids. induction ws as [|[k' w'] ws IH]; simpl; [tauto |].
  intros Hnd Hin. apply NoDup_cons in Hnd as [Hk Hnd].
  destruct Hin as [[= -> ->]|Hin].
  - now rewrite String.eqb_refl.
  - destruct (String.eqb_spec k' k) as [->|Hne]; [| now apply IH].
    exfalso. apply Hk. apply list_elem_of_In.
    change k with (fst (k, w)). now apply in_map.
Qed.

Lemma set_heap_id st : set_heap st (heap st) = st.
Proof. now destruct st. Qed.

Lemma set_widgets_id st : set_widgets st (widgets st) = st.
Proof. now destruct st. Qed.

(** The loop of [buildQuery]: every entry's [alterQuery], in order. *)
Lemma for_in_alterQuery es st o :
  (forall k w, In (k, w) es -> lookup_widget k (widgets st) = Some w) ->
  for_in (map fst es) call_alterQuery o st =
  Ok (alter_all_in es (heap st) o).2
     (set_heap st (alter_all_in es (heap st) o).1).
Proof.
  revert st o. induction es as [|[k w] es IH]; intros st o Hes.
  - simpl. unfold ret. now rewrite set_heap_id.
  - simpl. unfold bind, call_alterQuery.
    rewrite (Hes k w) by now left.
    destruct (assign (heap st) o (widget_alterQuery w (contents (heap st) o)))
      as [h1 o1] eqn:Hassign.
    rewrite IH by (intros k' w' Hin; apply Hes; now right).
    unfold alter_all_in. simpl. rewrite Hassign. reflexivity.
Qed.

(** Reading back what was written through the references. *)
Lemma contents_assign h o d :
  qo_fields o <> qo_fl o -> contents (assign h o d).1 (assign h o d).2 = d.
Proof.
  intros Hne. unfold contents, assign. simpl.
  rewrite !read_write_eq, read_write_ne by congruence.
  rewrite read_write_eq. now destruct d.
Qed.

Lemma alter_all_in_locs ws h o :
  let o' := (alter_all_in ws h o).2 in
  qo_fields o' = qo_fields o /\ qo_dates o' = qo_dates o /\
  qo_q o' = qo_q o /\ qo_fl o' = qo_fl o /\ qo_fq o' = qo_fq o.
Proof.
  revert h o. induction ws as [|[k w] ws IH]; intros h o; [simpl; tauto |].
  unfold alter_all_in. simpl fold_left.
  specialize (IH (assign h o (widget_alterQuery w (contents h o))).1
                 (assign h o (widget_alterQuery w (contents h o))).2).
  unfold alter_all_in in IH. rewrite <- surjective_pairing in IH.
  simpl in IH |- *. exact IH.
Qed.

Lemma contents_alter_all_in ws h o :
  qo_fields o <> qo_fl o ->
  contents (alter_all_in ws h o).1 (alter_all_in ws h o).2 =
  alter_all ws (contents h o).
Proof.
  revert h o. induction ws as [|[k w] ws IH]; intros h o Hne; [reflexivity |].
  unfold alter_all_in, alter_all. simpl fold_left.
  specialize (IH (assign h o (widget_alterQuery w (contents h o))).1
                 (assign h o (widget_alterQuery w (contents h o))).2 Hne).
  unfold alter_all_in, alter_all in IH. rewrite <- surjective_pairing in IH.
  rewrite IH. rewrite contents_assign by exact Hne. reflexivity.
Qed.

(** Arrays other than those of the query object are left as they are. *)
Lemma alter_all_in_frame ws h o :
  let h' := (alter_all_in ws h o).1 in
  (forall l, l <> qo_fields o -> l <> qo_fl o ->
             read (h_str h') l = read (h_str h) l) /\
  (forall l, l <> qo_dates o -> read (h_date h') l = read (h_date h) l) /\
  (forall l, l <> qo_q o -> read (h_q h') l = read (h_q h) l) /\
  (forall l, l <> qo_fq o -> read (h_fq h') l = read (h_fq h) l).
Proof.
  revert h o. induction ws as [|[k w] ws IH]; intros h o; [simpl; tauto |].
  unfold alter_all_in. simpl fold_left.
  specialize (IH (assign h o (widget_alterQuery w (contents h o))).1
                 (assign h o (widget_alterQuery w (contents h o))).2).
  unfold alter_all_in in IH. rewrite <- surjective_pairing in IH.
  destruct IH as (Hs & Hd & Hq & Hf). simpl in Hs, Hd, Hq, Hf |- *.
  repeat split; intros l.
  - intros H1 H2. rewrite Hs by assumption.
    now rewrite !read_write_ne by congruence.
  - intros H1. rewrite Hd by assumption. now rewrite read_write_ne by congruence.
  - intros H1. rewrite Hq by assumption. now rewrite read_write_ne by congruence.
  - intros H1. rewrite Hf by assumption. now rewrite read_write_ne by congruence.
Qed.

Lemma buildQuery_unfold st s :
  buildQuery s st =
  for_in (map fst (widgets st)) call_alterQuery (new_query st s)
         (set_heap st (new_heap st)).
Proof. reflexivity. Qed.
End Loops.

(** ** Saving the query to the URL hash *)

Section Save.
Context {W : Type} `{Widget W}.
Variable env : Env.
Implicit Types (st : State W).

Lemma saveQueryToHash_eq st (o : QueryObj) :
  saveQueryToHash env o st =
  Ok tt
    (set_hash
       (set_fragment st
          (url_fragment env (fragment_of env (contents (heap st) o))))
       (location_hash
          (set_fragment st
             (url_fragment env (fragment_of env (contents (heap st) o)))))).
Proof.
  unfold saveQueryToHash. cbv zeta.
  rewrite (fold_left_append _
    (fun i => ("fq=" +:+ FilterQueryItem_toHash env i) +:+ "&")) by reflexivity.
  rewrite (fold_left_append _
    (fun i => ("q=" +:+ QueryItem_toHash env i) +:+ "&")) by reflexivity.
  unfold assign_location_hash.
  replace (("#" +:+ cat (map (fun i => ("fq=" +:+ FilterQueryItem_toHash env i) +:+ "&")
                             (read (h_fq (heap st)) (qo_fq o))))
           +:+ cat (map (fun i => ("q=" +:+ QueryItem_toHash env i) +:+ "&")
                        (read (h_q (heap st)) (qo_q o))))
    with ("#" +:+ cat (map (fun s => s +:+ "&")
                           (segments env (contents (heap st) o)))).
  - reflexivity.
  - unfold segments. rewrite map_app, cat_app, !map_map.
    now rewrite append_assoc.
Qed.

Lemma split_segments (segs : list string) (last : string) :
  Forall (fun s => has_char "&" s = false) segs ->
  has_char "&" last = false ->
  Js.split "&" (cat (map (fun s => s +:+ "&") segs) +:+ last) = segs ++ [last].
Proof.
  intros Hsegs Hlast. induction Hsegs as [|s segs Hs _ IH].
  - simpl. now apply split_free.
  - simpl. rewrite !append_assoc.
    change ("&" +:+ cat (map (fun s => s +:+ "&") segs) +:+ last)
      with (String "&" (cat (map (fun s => s +:+ "&") segs) +:+ last)).
    rewrite split_append by exact Hs. now rewrite IH.
Qed.

Lemma fragment_of_nonempty (d : QueryData) : fragment_of env d <> "".
Proof.
  intros Heq. apply (f_equal String.length) in Heq.
  unfold fragment_of, start_segment in Heq.
  rewrite !length_append in Heq. simpl in Heq. lia.
Qed.
End Save.

(** ** Building a query *)

Section BuildQuery.
Context {W : Type} `{Widget W}.
Implicit Types (st : State W).

Lemma alloc_nil_read {A} (s : store A) l : read (alloc s []).2 l = read s l.
Proof.
  unfold alloc, read. simpl.
  destruct (decide (fresh (dom s) = l)) as [<-|Hne].
  - rewrite lookup_insert_eq.
    assert (Hnone : s !! fresh (dom s) = None)
      by (apply not_elem_of_dom, is_fresh).
    now rewrite Hnone.
  - now rewrite lookup_insert_ne.
Qed.

Lemma new_query_fresh st s : fresh_in (heap st) (new_query st s).
Proof.
  unfold fresh_in, new_query, slice.
  cbn [qo_fields qo_dates qo_q qo_fl qo_fq].
  pose proof (alloc_fresh (alloc (h_str (heap st)) []).2
                (read (alloc (h_str (heap st)) []).2 (filters_fl st))) as Hfl.
  rewrite alloc_dom in Hfl.
  split; [apply alloc_fresh |].
  split; [intros Hin; apply Hfl, elem_of_union; now right |].
  split; [intros Heq; apply Hfl, elem_of_union; left;
          rewrite <- Heq; now apply elem_of_singleton |].
  split; [apply alloc_fresh |].
  split; apply alloc_fresh.
Qed.

Lemma new_query_contents st s :
  contents (new_heap st) (new_query st s) = base_query st s.
Proof.
  unfold contents, new_heap, new_query, base_query, slice.
  cbn [qo_fields qo_dates qo_q qo_fl qo_fq qo_start qo_rows qo_sort
       h_str h_date h_q h_fq].
  f_equal.
  - rewrite alloc_frame
      by (rewrite alloc_dom; apply elem_of_union; left;
          now apply elem_of_singleton).
    apply alloc_read.
  - apply alloc_read.
  - apply alloc_read.
  - rewrite alloc_read. apply alloc_nil_read.
  - apply alloc_read.
Qed.

(** The arrays that were live before the allocation are left as they are. *)
Lemma new_heap_frame st :
  (forall l, l ∈ dom (h_str (heap st)) ->
             read (h_str (new_heap st)) l = read (h_str (heap st)) l) /\
  (forall l, l ∈ dom (h_q (heap st)) ->
             read (h_q (new_heap st)) l = read (h_q (heap st)) l) /\
  (forall l, l ∈ dom (h_fq (heap st)) ->
             read (h_fq (new_heap st)) l = read (h_fq (heap st)) l).
Proof.
  unfold new_heap, slice. cbn [h_str h_date h_q h_fq].
  repeat split; intros l Hl.
  - rewrite alloc_frame
      by (rewrite alloc_dom; apply elem_of_union; now right).
    now apply alloc_frame.
  - now apply alloc_frame.
  - now apply alloc_frame.
Qed.

Lemma buildQuery_eq st s :
  unique_ids (widgets st) ->
  buildQuery s st =
  Ok (alter_all_in (widgets st) (new_heap st) (new_query st s)).2
     (set_heap st (alter_all_in (widgets st) (new_heap st) (new_query st s)).1).
Proof.
  intros Hu. rewrite buildQuery_unfold.
  rewrite for_in_alterQuery
    by (intros k w Hin; simpl; now apply lookup_widget_unique).
  reflexivity.
Qed.


Lemma run_ops_frame env (o : QueryObj) (ops : list CycleOp) st :
  qo_fl o <> filters_fl st ->
  exists st', run_ops env o ops st = Ok tt st' /\
              base_filters st' = base_filters st.
Proof.
  intros Hne. revert st Hne.
  induction ops as [|op ops IH]; intros st Hne.
  - exists st. split; reflexivity.
  - unfold run_ops. cbn [for_in]. unfold bind at 1.
    destruct op as [skip|]; cbn [run_op].
    + unfold bind at 1. rewrite buildQueryString_eq. unfold ret.
      destruct (IH (set_heap st (pushed_id (heap st) o)) Hne) as (st' & Hr & Hb).
      exists st'. split; [exact Hr |]. rewrite Hb.
      unfold base_filters, pushed_id, with_str. simpl.
      now rewrite read_push_ne by exact Hne.
    + rewrite saveQueryToHash_eq.
      match goal with
      | |- context [for_in ops _ tt ?s] =>
          destruct (IH s Hne) as (st' & Hr & Hb)
      end.
      exists st'. split; [exact Hr |]. rewrite Hb. reflexivity.
Qed.

(** C8: in a request cycle the base filter arrays [this.filters.q], [.fq]
    and [.fl] hold what they held before.  [buildQuery] hands the widgets a
    query object whose arrays are other arrays than the base arrays, the
    widgets' [alterQuery] leaves the base arrays as they are, and so does
    any sequence of serialisations and saves of the query object. *)
Theorem base_filters_never_mutated env st (s : Js.Number) :
  unique_ids (widgets st) ->
  filters_live st ->
  exists o st1,
    buildQuery s st = Ok o st1 /\
    qo_q o <> filters_q st /\ qo_fq o <> filters_fq st /\
    qo_fl o <> filters_fl st /\ qo_fields o <> filters_fl st /\
    base_filters st1 = base_filters st /\
    forall ops : list CycleOp,
      exists st2, run_ops env o ops st1 = Ok tt st2 /\
                  base_filters st2 = base_filters st.
Proof.
  intros Hu (Hlq & Hlfq & Hlfl).
  rewrite (buildQuery_eq st s Hu).
  set (r := alter_all_in (widgets st) (new_heap st) (new_query st s)).
  pose proof (alter_all_in_locs (widgets st) (new_heap st) (new_query st s))
    as (Hf & Hd & Hq & Hfl & Hfq).
  pose proof (alter_all_in_frame (widgets st) (new_heap st) (new_query st s))
    as (Fs & _ & Fq & Ffq).
  pose proof (new_query_fresh st s) as (N1 & N2 & _ & _ & N3 & N4).
  pose proof (new_heap_frame st) as (A1 & A2 & A3).
  fold r in Hf, Hd, Hq, Hfl, Hfq, Fs, Fq, Ffq.
  assert (Dq : qo_q r.2 <> filters_q st)
    by (rewrite Hq; intros Heq; apply N3; now rewrite Heq).
  assert (Dfq : qo_fq r.2 <> filters_fq st)
    by (rewrite Hfq; intros Heq; apply N4; now rewrite Heq).
  assert (Dfl : qo_fl r.2 <> filters_fl st)
    by (rewrite Hfl; intros Heq; apply N2; now rewrite Heq).
  assert (Df : qo_fields r.2 <> filters_fl st)
    by (rewrite Hf; intros Heq; apply N1; now rewrite Heq).
  assert (B1 : base_filters (set_heap st r.1) = base_filters st).
  { unfold base_filters. cbn [heap set_heap filters_q filters_fq filters_fl].
    rewrite Fq by congruence. rewrite Ffq by congruence.
    rewrite Fs by congruence.
    now rewrite A1, A2, A3. }
  exists r.2, (set_heap st r.1).
  split; [reflexivity |].
  repeat (split; [assumption |]).
  intros ops.
  destruct (run_ops_frame env r.2 ops (set_heap st r.1) Dfl) as (st2 & Hr & Hb).
  exists st2. split; [exact Hr |]. now rewrite Hb.
Qed.
End BuildQuery.

(** ** Loops that call a method on every widget *)

Section WidgetLoops.
Context {W : Type} `{Widget W}.
Implicit Types (st : State W) (ws : registry W).

Lemma lookup_widget_app_absent id ws ws' :
  ~ In id (map fst ws) ->
  lookup_widget id (ws ++ ws') = lookup_widget id ws'.
Proof.
  induction ws as [|[k w] ws IH]; simpl; [reflexivity |].
  intros Hn. destruct (String.eqb_spec k id) as [->|Hne]; [tauto |].
  apply IH. tauto.
Qed.

Lemma update_widget_app_absent id w ws ws' :
  ~ In id (map fst ws) ->
  update_widget id w (ws ++ ws') = ws ++ update_widget id w ws'.
Proof.
  induction ws as [|[k w0] ws IH]; simpl; [reflexivity |].
  intros Hn. destruct (String.eqb_spec k id) as [->|Hne]; [tauto |].
  rewrite IH; [reflexivity | tauto].
Qed.

Lemma for_in_calls_from (body : string -> unit -> M (State W) unit)
  (g : string -> W -> W) :
  (forall id st, body id tt st = call id (g id) st) ->
  forall todo done st,
    widgets st = done ++ todo ->
    NoDup (map fst (done ++ todo)) ->
    for_in (map fst todo) body tt st =
    Ok tt (set_widgets st (done ++ map (fun e => (e.1, g e.1 e.2)) todo)).
Proof.
  intros Hbody. induction todo as [|[k w] todo IH]; intros done st Hws Hnd.
  - simpl. unfold ret. rewrite app_nil_r in *. rewrite <- Hws.
    now rewrite set_widgets_id.
  - simpl. unfold bind. rewrite Hbody. unfold call. rewrite Hws.
    assert (Hk : ~ In k (map fst done)).
    { rewrite map_app in Hnd. apply NoDup_app in Hnd as (_ & Hdis & _).
      intros Hin. apply (Hdis k); [now apply list_elem_of_In |].
      simpl. now left. }
    rewrite lookup_widget_app_absent by exact Hk.
    simpl. rewrite String.eqb_refl.
    rewrite update_widget_app_absent by exact Hk.
    simpl. rewrite String.eqb_refl.
    rewrite (IH (done ++ [(k, g k w)])).
    + simpl. now rewrite <- app_assoc.
    + simpl. now rewrite <- app_assoc.
    + rewrite <- app_assoc. simpl.
      rewrite !map_app in *. simpl in *. exact Hnd.
Qed.

(** A loop whose body calls a method on the widget it visits updates every
    entry of the registry, once, in place. *)
Lemma for_in_widgets_calls (body : string -> unit -> M (State W) unit)
  (g : string -> W -> W) st :
  (forall id st, body id tt st = call id (g id) st) ->
  unique_ids (widgets st) ->
  for_in_widgets body tt st =
  Ok tt (set_widgets st (map (fun e => (e.1, g e.1 e.2)) (widgets st))).
Proof.
  intros Hbody Hu. unfold for_in_widgets, bind, gets.
  now rewrite (for_in_calls_from body g Hbody (widgets st) [] st).
Qed.

Lemma lookup_widget_map (g : string -> W -> W) id ws :
  lookup_widget id (map (fun e => (e.1, g e.1 e.2)) ws) =
  g id <$> lookup_widget id ws.
Proof.
  induction ws as [|[k w] ws IH]; simpl; [reflexivity |].
  destruct (String.eqb_spec k id) as [->|Hne]; [reflexivity | exact IH].
Qed.

Lemma map_keys (g : string -> W -> W) ws :
  map fst (map (fun e => (e.1, g e.1 e.2)) ws) = map fst ws.
Proof. rewrite map_map. reflexivity. Qed.


End WidgetLoops.

(** ** Registration and the order of enumeration *)

Section Registration.
Context {W : Type} `{Widget W}.
Variable hooks : Hooks W.
Implicit Types (st : State W) (ws : registry W) (l : list W).

Lemma lookup_update_other id id' (w : W) ws :
  id <> id' ->
  lookup_widget id' (update_widget id w ws) = lookup_widget id' ws.
Proof.
  intros Hne. induction ws as [|[k w0] ws IH]; simpl; [reflexivity |].
  destruct (String.eqb_spec k id) as [->|Hk]; simpl.
  - destruct (String.eqb_spec id id'); [congruence | reflexivity].
  - now rewrite IH.
Qed.


Lemma entries_keys l : map fst (map entry l) = map widget_id l.
Proof. now rewrite map_map. Qed.

Lemma lookup_entries_absent (w : W) l :
  ~ In (widget_id w) (map widget_id l) ->
  lookup_widget (widget_id w) (map entry l) = None.
Proof. intros Hn. apply lookup_widget_None. now rewrite entries_keys. Qed.

(** *** The order that insertion by index produces *)

Lemma insert_by_index_perm (w : W) l : Permutation (insert_by_index w l) (w :: l).
Proof.
  induction l as [|x l IH]; simpl; [reflexivity |].
  destruct (index_of x <? index_of w)%N; [| reflexivity].
  rewrite IH. apply perm_swap.
Qed.

Lemma sort_by_index_snoc l (w : W) :
  sort_by_index (l ++ [w]) = insert_by_index w (sort_by_index l).
Proof. unfold sort_by_index. now rewrite fold_left_app. Qed.

Lemma sort_by_index_perm l : Permutation (sort_by_index l) l.
Proof.
  induction l as [|w l IH] using rev_ind; [reflexivity |].
  rewrite sort_by_index_snoc, insert_by_index_perm, IH.
  apply Permutation_cons_append.
Qed.

Lemma insert_by_index_sorted (w : W) l :
  StronglySorted (fun x y => (index_of x <= index_of y)%N) l ->
  StronglySorted (fun x y => (index_of x <= index_of y)%N) (insert_by_index w l).
Proof.
  induction 1 as [|x l Hs IH Hx]; simpl.
  - repeat constructor.
  - destruct (index_of x <? index_of w)%N eqn:Hlt.
    + constructor; [exact IH |].
      rewrite (insert_by_index_perm w l). constructor; [| exact Hx].
      apply N.ltb_lt in Hlt. lia.
    + apply N.ltb_ge in Hlt. constructor; [now constructor |].
      constructor; [exact Hlt |].
      eapply Forall_impl; [exact Hx |]. intros y Hy. simpl in Hy. lia.
Qed.

(** The widgets enumerated first ascend by index. *)
Lemma sort_by_index_sorted l :
  StronglySorted (fun x y => (index_of x <= index_of y)%N) (sort_by_index l).
Proof.
  induction l as [|w l IH] using rev_ind; [constructor |].
  rewrite sort_by_index_snoc. now apply insert_by_index_sorted.
Qed.

(** The enumeration visits every registered widget, once. *)
Lemma for_in_order_perm l : Permutation (for_in_order l) l.
Proof.
  unfold for_in_order. rewrite sort_by_index_perm.
  induction l as [|w l IH]; [reflexivity |]. simpl.
  destruct (is_index w); simpl; [now constructor |].
  rewrite <- Permutation_middle. now constructor.
Qed.


Lemma for_in_order_snoc l (w : W) :
  for_in_order (l ++ [w]) =
  if is_index w
  then insert_by_index w (sort_by_index (List.filter is_index l))
       ++ List.filter (fun w => negb (is_index w)) l
  else for_in_order l ++ [w].
Proof.
  unfold for_in_order. rewrite !List.filter_app. simpl.
  destruct (is_index w); simpl.
  - now rewrite sort_by_index_snoc, app_nil_r.
  - now rewrite app_nil_r, app_assoc.
Qed.

(** An entry put among the entries of widgets sorted by index, followed by
    widgets whose ids are no indices. *)
Lemma insert_index_entries (w : W) (n : N) (sorted names : list W) :
  Js.array_index (widget_id w) = Some n ->
  Forall (fun x => is_index x = true) sorted ->
  Forall (fun x => is_index x = false) names ->
  insert_index n (entry w) (map entry (sorted ++ names)) =
  map entry (insert_by_index w sorted ++ names).
Proof.
  intros Hw Hs Hn. induction Hs as [|x sorted Hx _ IH].
  - destruct Hn as [|y names Hy _]; [reflexivity |].
    simpl. unfold is_index in Hy.
    destruct (Js.array_index (widget_id y)); [discriminate | reflexivity].
  - simpl. unfold is_index in Hx. unfold index_of at 1 2. rewrite Hw.
    destruct (Js.array_index (widget_id x)) as [m|]; [| discriminate].
    simpl. destruct (m <? n)%N; [| reflexivity].
    simpl. now rewrite IH.
Qed.

Lemma filter_Forall_true (f : W -> bool) l :
  Forall (fun x => f x = true) (List.filter f l).
Proof.
  induction l as [|x l IH]; simpl; [constructor |].
  destruct (f x) eqn:Hf; [| exact IH].
  constructor; assumption.
Qed.

(** One more widget registered. *)
Lemma put_widget_for_in_order l (w : W) :
  ~ In (widget_id w) (map widget_id l) ->
  put_widget (widget_id w) (widget_afterAdditionToManager w)
             (map entry (for_in_order l))
  = map entry (for_in_order (l ++ [w])).
Proof.
  intros Hn. unfold put_widget.
  rewrite lookup_entries_absent
    by (intros Hin; apply Hn;
        eapply Permutation_in; [| exact Hin];
        apply Permutation_map, for_in_order_perm).
  rewrite for_in_order_snoc. unfold is_index at 1.
  destruct (Js.array_index (widget_id w)) as [n|] eqn:Hw.
  - unfold for_in_order. apply insert_index_entries; [exact Hw | |].
    + eapply Permutation_Forall;
        [symmetry; apply sort_by_index_perm | apply filter_Forall_true].
    + pose proof (filter_Forall_true (fun x => negb (is_index x)) l) as Hf.
      eapply Forall_impl; [exact Hf |]. intros x Hx. simpl in Hx.
      now apply negb_true_iff.
  - now rewrite map_app.
Qed.

Lemma register_all_from (done l : list W) st :
  widgets st = map entry (for_in_order done) ->
  NoDup (map widget_id (done ++ l)) ->
  Forall (fun w => canAddWidget hooks w = true) l ->
  register_all hooks l st =
  Ok tt (set_widgets st (map entry (for_in_order (done ++ l)))).
Proof.
  revert done st. induction l as [|w l IH]; intros done st Hws Hnd Hadm.
  - unfold register_all. simpl. unfold ret.
    now rewrite app_nil_r, <- Hws, set_widgets_id.
  - apply Forall_cons in Hadm as [Hw Hadm].
    assert (Hnew : ~ In (widget_id w) (map widget_id done)).
    { rewrite map_app in Hnd. apply NoDup_app in Hnd as (_ & Hdis & _).
      intros Hin. apply (Hdis (widget_id w)); [now apply list_elem_of_In |].
      simpl. now left. }
    assert (Hadd : addWidget hooks w st =
                   Ok tt (set_widgets st (map entry (for_in_order (done ++ [w]))))).
    { unfold addWidget, modify. rewrite Hw, Hws.
      now rewrite put_widget_for_in_order. }
    unfold register_all in IH |- *. cbn [for_in]. unfold bind.
    rewrite Hadd, (IH (done ++ [w])).
    + cbn [widgets set_widgets]. now rewrite <- app_assoc.
    + reflexivity.
    + now rewrite <- app_assoc.
    + exact Hadm.
Qed.

(** Widgets with distinct ids registered one after the other in an empty
    registry are enumerated in [for_in_order]. *)
Lemma register_all_empty l st :
  widgets st = [] ->
  NoDup (map widget_id l) ->
  Forall (fun w => canAddWidget hooks w = true) l ->
  register_all hooks l st =
  Ok tt (set_widgets st (map entry (for_in_order l))).
Proof.
  intros Hempty Hnd Hadm.
  now apply (register_all_from [] l st).
Qed.

Lemma alter_all_map (f : W -> string * W) l (d : QueryData) :
  alter_all (map f l) d = fold_left (fun d w => widget_alterQuery (f w).2 d) l d.
Proof.
  unfold alter_all. revert d. induction l as [|w l IH]; intros d;
    [reflexivity | exact (IH _)].
Qed.

End Registration.


(** ** Decoding the URL hash *)

Section Decode.
Context {W : Type} `{Widget W}.
Variable env : Env.
Implicit Types (st : State W) (seg : string).

Lemma drop_location_hash st : Js.drop 1 (location_hash st) = fragment st.
Proof. unfold location_hash. now destruct (fragment st). Qed.

Lemma length_location_hash st :
  Nat.eqb (String.length (location_hash st)) 0 =
  match fragment st with EmptyString => true | String _ _ => false end.
Proof. unfold location_hash. now destruct (fragment st). Qed.

Lemma route_keys id v (ws : registry W) : map fst (route id v ws) = map fst ws.
Proof.
  unfold route. destruct (lookup_widget id ws); [| reflexivity].
  apply update_widget_keys.
Qed.

Lemma lookup_widget_keys id (ws ws' : registry W) :
  map fst ws' = map fst ws ->
  lookup_widget id ws = None -> lookup_widget id ws' = None.
Proof.
  intros Hk Hn. apply lookup_widget_None. rewrite Hk.
  now apply lookup_widget_None.
Qed.

(** Whether a segment can be routed depends on the registered ids only. *)
Lemma names_inherited_keys (ws ws' : registry W) seg :
  map fst ws' = map fst ws ->
  names_inherited env ws' seg = names_inherited env ws seg.
Proof.
  intros Hk. unfold names_inherited. cbv zeta.
  destruct (String.prefix "fq=" seg); [| reflexivity]. simpl.
  destruct (Js.inherited _); [| reflexivity]. simpl.
  set (id := fq_widgetId _).
  destruct (lookup_widget id ws) as [w|] eqn:Hl.
  - destruct (lookup_widget id ws') eqn:Hl'; [reflexivity |].
    apply (lookup_widget_keys id ws' ws) in Hl'; congruence.
  - now rewrite (lookup_widget_keys id ws ws' Hk Hl).
Qed.

(** The guarded call: the value is routed to a registered widget, dropped
    when the read yields [undefined], and the call raises when the read
    yields an inherited value. *)
Lemma select_if_present_eq id v st :
  select_if_present id v st =
  match lookup_widget id (widgets st) with
  | Some _ => Ok tt (set_widgets st (route id v (widgets st)))
  | None => if Js.inherited id then Err TypeError st else Ok tt st
  end.
Proof.
  unfold select_if_present, bind, gets, get_widget, call_bool, route, ret.
  destruct (lookup_widget id (widgets st)) as [w|] eqn:Hl.
  - now rewrite Hl.
  - destruct (Js.inherited id); [now rewrite Hl | reflexivity].
Qed.

Lemma select_if_present_route id v st :
  (lookup_widget id (widgets st) = None -> Js.inherited id = false) ->
  select_if_present id v st = Ok tt (set_widgets st (route id v (widgets st))).
Proof.
  intros Hr. rewrite select_if_present_eq. unfold route.
  destruct (lookup_widget id (widgets st)) as [w|] eqn:Hl; [reflexivity |].
  rewrite (Hr eq_refl). now rewrite set_widgets_id.
Qed.

(** The body of the loop is the dispatch on the prefix, for a segment that
    can be routed or dropped. *)
Lemma load_var_dispatch seg st :
  routable env (widgets st) seg ->
  load_var env seg st = Ok tt (dispatch env seg st).
Proof.
  unfold routable, names_inherited, load_var, dispatch. cbv zeta.
  rewrite <- (substring_prefix "fq=" seg), <- (substring_prefix "q=" seg),
    <- (substring_prefix "start=" seg).
  change (String.length "fq=") with 3. change (String.length "q=") with 2.
  change (String.length "start=") with 6.
  destruct (String.eqb (Js.substring 0 3 seg) "fq=").
  { simpl. intros Hr. apply select_if_present_route. intros Hl.
    rewrite Hl in Hr. now rewrite andb_true_r in Hr. }
  intros _.
  destruct (String.eqb (Js.substring 0 2 seg) "q=");
    [apply select_if_present_route; reflexivity |].
  destruct (String.eqb (Js.substring 0 6 seg) "start="); reflexivity.
Qed.

(** The body of the loop raises on the other segments, and leaves the
    state as it is. *)
Lemma load_var_raises seg st :
  names_inherited env (widgets st) seg = true ->
  load_var env seg st = Err TypeError st.
Proof.
  unfold names_inherited, load_var. cbv zeta.
  rewrite <- (substring_prefix "fq=" seg).
  change (String.length "fq=") with 3.
  destruct (String.eqb (Js.substring 0 3 seg) "fq="); [| discriminate].
  simpl. intros Hr. apply andb_true_iff in Hr as [Hi Hl].
  rewrite select_if_present_eq.
  destruct (lookup_widget _ (widgets st)); [discriminate |]. now rewrite Hi.
Qed.

Lemma dispatch_keys seg st :
  map fst (widgets (dispatch env seg st)) = map fst (widgets st).
Proof.
  unfold dispatch.
  destruct (String.prefix "fq=" seg); [apply route_keys |].
  destruct (String.prefix "q=" seg); [apply route_keys |].
  destruct (String.prefix "start=" seg); reflexivity.
Qed.

Lemma routable_dispatch seg seg' st :
  routable env (widgets st) seg' ->
  routable env (widgets (dispatch env seg st)) seg'.
Proof.
  unfold routable. now rewrite (names_inherited_keys _ _ _ (dispatch_keys seg st)).
Qed.

Lemma for_in_load_var segs st :
  Forall (routable env (widgets st)) segs ->
  for_in segs (fun v _ => load_var env v) tt st =
  Ok tt (dispatch_all env segs st).
Proof.
  revert st. induction segs as [|seg segs IH]; intros st Hr; [reflexivity |].
  apply Forall_cons in Hr as [Hseg Hr].
  simpl. unfold bind. rewrite load_var_dispatch by exact Hseg. apply IH.
  eapply Forall_impl; [exact Hr |]. intros seg'. apply routable_dispatch.
Qed.

(** The loop stops at the first segment that cannot be routed: the segments
    before it are decoded, those after it are not read. *)
Lemma for_in_load_var_raises pre seg post st :
  Forall (routable env (widgets st)) pre ->
  names_inherited env (widgets st) seg = true ->
  for_in (pre ++ seg :: post) (fun v _ => load_var env v) tt st =
  Err TypeError (dispatch_all env pre st).
Proof.
  revert st. induction pre as [|p pre IH]; intros st Hr Hseg.
  - simpl. unfold bind. now rewrite load_var_raises.
  - apply Forall_cons in Hr as [Hp Hr].
    simpl. unfold bind. rewrite load_var_dispatch by exact Hp. apply IH.
    + eapply Forall_impl; [exact Hr |]. intros seg'. apply routable_dispatch.
    + now rewrite (names_inherited_keys _ _ _ (dispatch_keys p st)).
Qed.

(** Whether every segment of a list can be routed, by computation. *)
Lemma routable_check (ws : registry W) (segs : list string) :
  forallb (fun seg => negb (names_inherited env ws seg)) segs = true ->
  Forall (routable env ws) segs.
Proof.
  intros Hb. apply List.Forall_forall. intros seg Hin.
  rewrite forallb_forall in Hb. specialize (Hb seg Hin).
  now apply negb_true_iff in Hb.
Qed.

Lemma reset_all_keys (ws : registry W) : map fst (reset_all ws) = map fst ws.
Proof. unfold reset_all. now rewrite map_map. Qed.

(** [loadQueryFromHash] up to the loop over the segments. *)
Lemma loadQueryFromHash_eq st :
  unique_ids (widgets st) ->
  loadQueryFromHash env st =
  for_in (Js.split "&" (fragment st)) (fun v _ => load_var env v) tt
         (reset_if_navigated st).
Proof.
  intros Hu. unfold loadQueryFromHash, reset_if_navigated.
  unfold bind at 1. unfold gets at 1. rewrite length_location_hash.
  destruct (fragment st) as [|c f] eqn:Hfrag.
  - unfold bind, ret, gets. now rewrite drop_location_hash, Hfrag.
  - unfold bind at 1.
    rewrite (for_in_widgets_calls _ (fun _ => widget_deselectAll))
      by (intros; reflexivity || assumption).
    unfold bind, gets. rewrite drop_location_hash. simpl fragment.
    now rewrite Hfrag.
Qed.

Lemma routable_reset st seg :
  routable env (widgets st) seg ->
  routable env (widgets (reset_if_navigated st)) seg.
Proof.
  unfold routable, reset_if_navigated. intros Hr.
  destruct (fragment st); [exact Hr |].
  cbn [widgets set_widgets].
  now rewrite (names_inherited_keys _ _ _ (reset_all_keys (widgets st))).
Qed.

Lemma loadQueryFromHash_routed st :
  unique_ids (widgets st) ->
  Forall (routable env (widgets st)) (Js.split "&" (fragment st)) ->
  loadQueryFromHash env st = Ok tt (decode env st).
Proof.
  intros Hu Hr. rewrite (loadQueryFromHash_eq st Hu). unfold decode.
  apply for_in_load_var.
  eapply Forall_impl; [exact Hr |]. intros seg. apply routable_reset.
Qed.




(** C5, as the code has it: a segment that begins with neither [fq=] nor
    [q=] raises nothing, and leaves the state as it is unless it begins with
    [start=]; a [start=] segment always stores what [parseInt] makes of the
    rest, [NaN] included. *)
Theorem load_var_other st seg :
  String.prefix "fq=" seg = false ->
  String.prefix "q=" seg = false ->
  load_var env seg st =
  Ok tt (if String.prefix "start=" seg
         then set_start st (Js.parseInt (Js.drop 6 seg))
         else st).
Proof.
  intros Hfq Hq.
  rewrite load_var_dispatch
    by (unfold routable, names_inherited; now rewrite Hfq).
  unfold dispatch. now rewrite Hfq, Hq.
Qed.
End Decode.

(** The segment [start=abc] begins with [start=], has no integer after it,
    and is not ignored: the start offset, 0 before, is [NaN] after. *)
Lemma malformed_start_counterexample :
  String.prefix "start=" "start=abc" = true /\
  Js.parseInt (Js.drop 6 "start=abc") = Js.NaN /\
  start Sample.bare = Js.Int 0 /\
  load_var Sample.env "start=abc" Sample.bare
    = Ok tt (set_start Sample.bare Js.NaN) /\
  load_var Sample.env "start=abc" Sample.bare <> Ok tt Sample.bare /\
  start (final_state (loadQueryFromHash Sample.env
                        (set_fragment Sample.bare "start=abc"))) = Js.NaN.
Proof.
  repeat split; try reflexivity.
  intros Heq. discriminate Heq.
Qed.



(** The fragment [fq=tags:tag:red&start=20] on a manager with a widget
    [tags]: the widget's selection becomes [red], the start offset 20. *)
Example loadQueryFromHash_red :
  let st := final_state (loadQueryFromHash Sample.env
              (set_fragment Sample.two_widgets "fq=tags:tag:red&start=20")) in
  (Sample.selection <$> lookup_widget "tags" (widgets st)) = Some ["red"] /\
  (Sample.selection <$> lookup_widget "text" (widgets st)) = Some [] /\
  start st = Js.Int 20.
Proof. repeat split. Qed.

(** ** Selection entry points *)

Section Selection.
Context {W : Type} `{Widget W}.
Variable env : Env.
Variable hooks : Hooks W.
Implicit Types (st : State W).

End Selection.

Section SelectOnly.
Context {W : Type} `{SelectionWidget W}.
Variable env : Env.
Variable hooks : Hooks W.
Implicit Types (st : State W).

Lemma selectOnlyItems_eq st keepId items :
  unique_ids (widgets st) ->
  selectOnlyItems env hooks keepId items st =
  doRequest env hooks (Js.Int 0)
    (set_widgets st
       (map (fun e => (e.1, keep_or_clear keepId items e.1 e.2)) (widgets st))).
Proof.
  intros Hu. unfold selectOnlyItems. unfold bind at 1.
  rewrite (for_in_widgets_calls _ (keep_or_clear keepId items)).
  - reflexivity.
  - intros id st'. unfold keep_or_clear.
    destruct (String.eqb_spec id keepId) as [->|Hne]; [| reflexivity].
    unfold bind, call_bool, call, ret.
    now destruct (lookup_widget keepId (widgets st')).
  - exact Hu.
Qed.

(** C7, as the code has it: [selectOnlyItems keepId items] clears the
    selection of every registered widget other than [keepId], adds [items]
    to the selection of [keepId] (what was selected there stays selected),
    and then runs a request with start offset 0. *)
Theorem selectOnlyItems_adds st keepId (items : list string) (wk : W) :
  unique_ids (widgets st) ->
  lookup_widget keepId (widgets st) = Some wk ->
  exists ws',
    selectOnlyItems env hooks keepId items st =
      doRequest env hooks (Js.Int 0) (set_widgets st ws') /\
    map fst ws' = map fst (widgets st) /\
    (forall id w, id <> keepId -> lookup_widget id (widgets st) = Some w ->
       lookup_widget id ws' = Some (widget_deselectAll w) /\
       selected (widget_deselectAll w) = []) /\
    lookup_widget keepId ws' = Some (widget_selectItems items wk).2 /\
    Permutation (selected (widget_selectItems items wk).2)
                (selected wk ++ items).
Proof.
  intros Hu Hk. eexists. split; [now apply selectOnlyItems_eq |].
  split; [apply map_keys |]. split; [| split].
  - intros id w Hne Hl. rewrite lookup_widget_map, Hl. simpl.
    unfold keep_or_clear.
    destruct (String.eqb_spec id keepId); [congruence |].
    split; [reflexivity | apply selected_deselectAll].
  - rewrite lookup_widget_map, Hk. simpl. unfold keep_or_clear.
    now rewrite String.eqb_refl.
  - apply selected_selectItems.
Qed.
End SelectOnly.

(** With [x] selected on [tags], [selectOnlyItems "tags" ["y"]] runs its
    request and leaves [x] and [y] selected on [tags], not [y] alone. *)
Lemma selectOnlyItems_counterexample :
  exists st',
    selectOnlyItems Sample.env Sample.hooks "tags" ["y"] Sample.two_widgets
      = Ok tt st' /\
    (selected <$> lookup_widget "tags" (widgets Sample.two_widgets))
      = Some ["x"] /\
    (selected <$> lookup_widget "tags" (widgets st')) = Some ["x"; "y"] /\
    (selected <$> lookup_widget "text" (widgets st')) = Some [] /\
    ~ Permutation ["x"; "y"] ["y"].
Proof.
  eexists. split; [vm_compute; reflexivity |].
  split; [reflexivity |]. split; [reflexivity |]. split; [reflexivity |].
  intros Hp. apply Permutation_length in Hp. discriminate Hp.
Qed.

(** ** Numbers as text *)

Section Numbers.
Import Decimal.

Ltac eval_digit :=
  repeat match goal with
  | |- context [Js.digit_value ?c] =>
      let v := eval vm_compute in (Js.digit_value c) in
      change (Js.digit_value c) with v
  end.

Ltac eval_space :=
  repeat match goal with
  | |- context [Js.is_space ?c] =>
      let v := eval vm_compute in (Js.is_space c) in
      change (Js.is_space c) with v
  end.

Lemma read_digits_acc (d : uint) (acc : positive) :
  Js.read_digits 10 (NilEmpty.string_of_uint d) (Some (Z.pos acc)) =
  Some (Z.pos (Pos.of_uint_acc d acc)).
Proof.
  revert acc.
  induction d as [|d IH|d IH|d IH|d IH|d IH|d IH|d IH|d IH|d IH|d IH];
    intros acc; [reflexivity | ..];
    cbn [NilEmpty.string_of_uint Js.read_digits Pos.of_uint_acc]; eval_digit;
    cbn [Z.ltb Z.compare Pos.compare Pos.compare_cont default]; unfold id;
    rewrite <- IH; f_equal; f_equal; lia.
Qed.

Lemma read_digits_zero (d : uint) :
  Js.read_digits 10 (NilEmpty.string_of_uint d) (Some 0%Z) =
  Some (Z.of_N (Pos.of_uint d)).
Proof.
  induction d as [|d IH|d IH|d IH|d IH|d IH|d IH|d IH|d IH|d IH|d IH];
    [reflexivity | ..];
    cbn [NilEmpty.string_of_uint Js.read_digits Pos.of_uint]; eval_digit;
    cbn [Z.ltb Z.compare Pos.compare Pos.compare_cont default]; unfold id;
    [exact IH | ..]; apply read_digits_acc.
Qed.

Lemma read_digits_uint (d : uint) :
  d <> Nil ->
  Js.read_digits 10 (NilEmpty.string_of_uint d) None =
  Some (Z.of_N (Pos.of_uint d)).
Proof.
  destruct d; [congruence | ..]; intros _;
    cbn [NilEmpty.string_of_uint Js.read_digits Pos.of_uint]; eval_digit;
    cbn [Z.ltb Z.compare Pos.compare Pos.compare_cont default]; unfold id;
    [apply read_digits_zero | ..]; apply read_digits_acc.
Qed.

(** [parseInt] reads a run of decimal digits as the number they denote. *)
Lemma parseInt_uint (d : uint) :
  d <> Nil ->
  Js.parseInt (NilEmpty.string_of_uint d)
    = Js.number_of false (Z.of_N (Pos.of_uint d)) /\
  Js.parseInt (String "-" (NilEmpty.string_of_uint d))
    = Js.number_of true (Z.of_N (Pos.of_uint d)).
Proof.
  intros Hd. pose proof (read_digits_uint d Hd) as Hr.
  destruct d as [|d|d|d|d|d|d|d|d|d|d]; [congruence | destruct d | ..];
    cbn [NilEmpty.string_of_uint] in Hr |- *;
    unfold Js.parseInt;
    cbn [Js.skip_spaces]; eval_space;
    cbn -[Js.read_digits Z.of_N Pos.of_uint Z.opp Js.number_of];
    rewrite Hr; split; reflexivity.
Qed.

(** Below 2^53 every integer is a double. *)
Lemma number_of_safe (neg : bool) (a : Z) :
  (a <? 2 ^ 53)%Z = true ->
  Js.number_of neg a = Js.Int (if neg then - a else a)%Z.
Proof.
  intros Hs. unfold Js.number_of, Js.round_to_double. rewrite Hs.
  assert (Hl : (2 ^ 1024 <=? a)%Z = false).
  { apply Z.leb_gt. apply Z.ltb_lt in Hs.
    eapply Z.lt_trans; [exact Hs |]. apply Z.pow_lt_mono_r; lia. }
  now rewrite Hl.
Qed.

(** The text of a safe integer reads back as the number. *)
Lemma parseInt_toString (n : Js.Number) :
  Js.isSafeInteger n = true -> Js.parseInt (Js.toString n) = n.
Proof.
  destruct n as [|z|neg]; try discriminate.
  unfold Js.isSafeInteger, Js.toString. cbv zeta. intros Hs. rewrite Hs.
  unfold Js.digits.
  destruct z as [|p|p]; [reflexivity | ..];
    unfold Z.to_int, NilEmpty.string_of_int.
  - destruct (parseInt_uint (Pos.to_uint p)
                (DecimalPos.Unsigned.to_uint_nonnil p)) as [Hp _].
    rewrite Hp, DecimalPos.Unsigned.of_to. now apply number_of_safe.
  - destruct (parseInt_uint (Pos.to_uint p)
                (DecimalPos.Unsigned.to_uint_nonnil p)) as [_ Hp].
    rewrite Hp, DecimalPos.Unsigned.of_to. now apply number_of_safe.
Qed.

Lemma has_char_uint (d : uint) : has_char "&" (NilEmpty.string_of_uint d) = false.
Proof. induction d; simpl; [reflexivity | ..]; exact IHd. Qed.

Lemma has_char_toString (n : Js.Number) :
  Js.isSafeInteger n = true -> has_char "&" (Js.toString n) = false.
Proof.
  destruct n as [|z|neg]; try discriminate.
  unfold Js.isSafeInteger, Js.toString. cbv zeta. intros Hs. rewrite Hs.
  unfold Js.digits.
  destruct z as [|p|p]; [reflexivity | ..];
    unfold Z.to_int, NilEmpty.string_of_int; simpl;
    apply has_char_uint.
Qed.
End Numbers.


(** ** The round trip through the hash *)

Section RoundTrip.
Context {W : Type} `{SelectionWidget W}.
Variable env : Env.
Implicit Types (st : State W) (ws : registry W).

Lemma all_selected_update id (w w' : W) ws (items : list string) :
  lookup_widget id ws = Some w ->
  Permutation (selected w') (selected w ++ items) ->
  Permutation (all_selected (update_widget id w' ws)) (all_selected ws ++ items).
Proof.
  intros Hl Hp. induction ws as [|[k w0] ws IH]; [discriminate |].
  simpl in Hl |- *. destruct (String.eqb_spec k id) as [->|Hne].
  - injection Hl as ->. unfold all_selected. simpl.
    rewrite Hp, <- !app_assoc. apply Permutation_app_head.
    apply Permutation_app_comm.
  - unfold all_selected in *. simpl. rewrite (IH Hl), <- app_assoc.
    reflexivity.
Qed.

Lemma registered_keys id ws ws' :
  map fst ws' = map fst ws -> registered id ws -> registered id ws'.
Proof.
  unfold registered. intros Hk Hr Hn. apply Hr.
  apply lookup_widget_None. rewrite <- Hk. now apply lookup_widget_None.
Qed.

Lemma all_selected_route id v ws :
  registered id ws ->
  Permutation (all_selected (route id v ws)) (all_selected ws ++ [v]).
Proof.
  unfold registered, route. intros Hr.
  destruct (lookup_widget id ws) as [w|] eqn:Hl; [| congruence].
  apply (all_selected_update id w); [exact Hl |].
  apply selected_selectItems.
Qed.

Lemma all_selected_routes (rs : list (string * string)) ws :
  Forall (fun r => registered r.1 ws) rs ->
  Permutation (all_selected (fold_left (fun ws r => route r.1 r.2 ws) rs ws))
              (all_selected ws ++ map snd rs).
Proof.
  revert ws. induction rs as [|[id v] rs IH]; intros ws Hrs.
  - simpl. now rewrite app_nil_r.
  - apply Forall_cons in Hrs as [Hr Hrs]. simpl.
    rewrite IH.
    + rewrite (all_selected_route id v ws Hr), <- app_assoc. reflexivity.
    + eapply Forall_impl; [exact Hrs |]. intros r Hreg.
      eapply registered_keys; [| exact Hreg]. apply route_keys.
Qed.

Lemma all_selected_reset ws : all_selected (reset_all ws) = [].
Proof.
  unfold all_selected, reset_all. induction ws as [|[k w] ws IH]; [reflexivity |].
  simpl. now rewrite selected_deselectAll, IH.
Qed.

Lemma dispatch_fq (i : FilterQueryItem) st :
  FilterQueryItem_parseHash env (FilterQueryItem_toHash env i) = i ->
  dispatch env ("fq=" +:+ FilterQueryItem_toHash env i) st =
  set_widgets st (route (fq_widgetId i) (fq_value i) (widgets st)).
Proof.
  intros Hi. unfold dispatch. rewrite prefix_append.
  change 3 with (String.length "fq="). rewrite drop_append.
  cbv zeta. now rewrite Hi.
Qed.

Lemma dispatch_q (i : QueryItem) st :
  QueryItem_parseHash env (QueryItem_toHash env i) = i ->
  dispatch env ("q=" +:+ QueryItem_toHash env i) st =
  set_widgets st (route "text" (qi_value i) (widgets st)).
Proof.
  intros Hi. unfold dispatch.
  change (String.prefix "fq=" ("q=" +:+ QueryItem_toHash env i)) with false.
  rewrite prefix_append.
  change 2 with (String.length "q="). rewrite drop_append.
  cbv zeta. now rewrite Hi.
Qed.

Lemma dispatch_start (n : Js.Number) st :
  Js.isSafeInteger n = true ->
  dispatch env ("start=" +:+ Js.toString n) st = set_start st n.
Proof.
  intros Hs. unfold dispatch.
  change (String.prefix "fq=" ("start=" +:+ Js.toString n)) with false.
  change (String.prefix "q=" ("start=" +:+ Js.toString n)) with false.
  rewrite prefix_append.
  change 6 with (String.length "start="). rewrite drop_append.
  now rewrite parseInt_toString.
Qed.

(** The segments of a written fragment never start with another prefix
    than their own. *)
Lemma routable_q (ws : registry W) (t : string) : routable env ws ("q=" +:+ t).
Proof. reflexivity. Qed.

Lemma routable_start (ws : registry W) (t : string) :
  routable env ws ("start=" +:+ t).
Proof. reflexivity. Qed.

Lemma routable_fq (ws : registry W) (i : FilterQueryItem) :
  FilterQueryItem_parseHash env (FilterQueryItem_toHash env i) = i ->
  registered (fq_widgetId i) ws ->
  routable env ws ("fq=" +:+ FilterQueryItem_toHash env i).
Proof.
  intros Hi Hr. unfold routable, names_inherited. cbv zeta.
  rewrite prefix_append.
  change 3 with (String.length "fq="). rewrite drop_append, Hi.
  unfold registered in Hr.
  destruct (lookup_widget (fq_widgetId i) ws); [| congruence].
  now rewrite andb_false_r.
Qed.

Lemma fold_dispatch {A} (f : A -> string) (r : A -> string * string)
  (l : list A) st :
  Forall (fun i => forall st, dispatch env (f i) st =
                     set_widgets st (route (r i).1 (r i).2 (widgets st))) l ->
  fold_left (fun st seg => dispatch env seg st) (map f l) st =
  set_widgets st
    (fold_left (fun ws r => route r.1 r.2 ws) (map r l) (widgets st)).
Proof.
  intros Hl. revert st. induction Hl as [|i l Hi _ IH]; intros st.
  - simpl. now rewrite set_widgets_id.
  - simpl. rewrite Hi, IH. reflexivity.
Qed.

Lemma fold_dispatch_segments (d : QueryData) st :
  Forall (fq_roundtrips env) (d_fq d) ->
  Forall (q_roundtrips env) (d_q d) ->
  fold_left (fun st seg => dispatch env seg st) (segments env d) st =
  set_widgets st
    (fold_left (fun ws r => route r.1 r.2 ws) (routes d) (widgets st)).
Proof.
  intros Hfq Hq. unfold segments, routes. rewrite !fold_left_app.
  rewrite (fold_dispatch _ (fun i => (fq_widgetId i, fq_value i))).
  - rewrite (fold_dispatch _ (fun i => ("text", qi_value i))).
    + reflexivity.
    + eapply Forall_impl; [exact Hq |]. intros i [Hi _] st'.
      now apply dispatch_q.
  - eapply Forall_impl; [exact Hfq |]. intros i [Hi _] st'.
    now apply dispatch_fq.
Qed.
End RoundTrip.

Section RoundTripTheorem.
Context {W : Type} `{SelectionWidget W}.
Variable env : Env.
Implicit Types (st : State W) (ws : registry W).

Lemma segments_free (d : QueryData) :
  Forall (fq_roundtrips env) (d_fq d) ->
  Forall (q_roundtrips env) (d_q d) ->
  Forall (fun s => has_char "&" s = false) (segments env d).
Proof.
  intros Hfq Hq. unfold segments. apply Forall_app. split.
  - apply Forall_map. eapply Forall_impl; [exact Hfq |].
    intros i [_ Hi]. cbv beta. rewrite has_char_append, Hi. reflexivity.
  - apply Forall_map. eapply Forall_impl; [exact Hq |].
    intros i [_ Hi]. cbv beta. rewrite has_char_append, Hi. reflexivity.
Qed.

Lemma routes_values (d : QueryData) :
  map snd (routes d) = map fq_value (d_fq d) ++ map qi_value (d_q d).
Proof. unfold routes. now rewrite map_app, !map_map. Qed.

Lemma routes_registered (d : QueryData) ws :
  Forall (fun i => registered (fq_widgetId i) ws) (d_fq d) ->
  Forall (fun i => registered "text" ws) (d_q d) ->
  Forall (fun r => registered r.1 (reset_all ws)) (routes d).
Proof.
  intros Hfq Hq. unfold routes. apply Forall_app. split.
  - apply Forall_map. eapply Forall_impl; [exact Hfq |].
    intros i Hi. simpl. eapply registered_keys; [| exact Hi].
    unfold reset_all. now rewrite map_map.
  - apply Forall_map. eapply Forall_impl; [exact Hq |].
    intros i Hi. simpl. eapply registered_keys; [| exact Hi].
    unfold reset_all. now rewrite map_map.
Qed.

Lemma segments_routable (d : QueryData) ws :
  Forall (fun i => fq_roundtrips env i /\ registered (fq_widgetId i) ws)
         (d_fq d) ->
  Forall (routable env ws) (segments env d ++ [start_segment d]).
Proof.
  intros Hfq. unfold segments. rewrite <- app_assoc.
  apply Forall_app. split; [| apply Forall_app; split].
  - apply Forall_map. eapply Forall_impl; [exact Hfq |].
    intros i [[Hi _] Hr]. now apply routable_fq.
  - apply Forall_map. apply Forall_forall. intros i _. apply routable_q.
  - constructor; [apply routable_start | constructor].
Qed.

(** C3, as the code has it: when the browser keeps the written fragment as
    it is, every filter and term of the query object has a codec that
    round-trips into text without [&], every filter's widget is registered,
    a widget is registered under [text] if there is any term, and the start
    offset is a safe integer (of magnitude below 2^53, so that its text
    shows every digit), then [loadQueryFromHash] after [saveQueryToHash]
    restores the start offset of the query object and leaves selected, over
    all widgets, the filter and term values of the query object, as a
    multiset. *)
Theorem hash_roundtrip st (o : QueryObj) :
  unique_ids (widgets st) ->
  url_fragment env (fragment_of env (contents (heap st) o))
    = fragment_of env (contents (heap st) o) ->
  Forall (fun i => fq_roundtrips env i /\ registered (fq_widgetId i) (widgets st))
         (d_fq (contents (heap st) o)) ->
  Forall (fun i => q_roundtrips env i /\ registered "text" (widgets st))
         (d_q (contents (heap st) o)) ->
  Js.isSafeInteger (qo_start o) = true ->
  exists st1 st2,
    saveQueryToHash env o st = Ok tt st1 /\
    loadQueryFromHash env st1 = Ok tt st2 /\
    start st2 = qo_start o /\
    Permutation (all_selected (widgets st2))
                (map fq_value (d_fq (contents (heap st) o))
                 ++ map qi_value (d_q (contents (heap st) o))).
Proof.
  set (d := contents (heap st) o). intros Hu Hurl Hfq Hq Hsafe.
  assert (Hfq1 : Forall (fq_roundtrips env) (d_fq d))
    by (eapply Forall_impl; [exact Hfq |]; now intros i [Hi _]).
  assert (Hq1 : Forall (q_roundtrips env) (d_q d))
    by (eapply Forall_impl; [exact Hq |]; now intros i [Hi _]).
  assert (Hfq2 : Forall (fun i => registered (fq_widgetId i) (widgets st)) (d_fq d))
    by (eapply Forall_impl; [exact Hfq |]; now intros i [_ Hi]).
  assert (Hq2 : Forall (fun i => registered "text" (widgets st)) (d_q d))
    by (eapply Forall_impl; [exact Hq |]; now intros i [_ Hi]).
  assert (Hsplit : Js.split "&" (fragment_of env d)
                   = segments env d ++ [start_segment d]).
  { unfold fragment_of. apply split_segments; [now apply segments_free |].
    unfold start_segment. rewrite has_char_append. simpl.
    now apply has_char_toString. }
  rewrite saveQueryToHash_eq. fold d. rewrite Hurl.
  eexists _, _. split; [reflexivity |].
  rewrite loadQueryFromHash_routed;
    [| exact Hu
     | cbn [fragment set_hash set_fragment widgets]; rewrite Hsplit;
       now apply segments_routable].
  split; [reflexivity |].
  unfold decode, reset_if_navigated, dispatch_all.
  cbn [fragment set_hash set_fragment widgets].
  rewrite Hsplit.
  destruct (fragment_of env d) as [|c f] eqn:Hfrag;
    [now apply fragment_of_nonempty in Hfrag |].
  rewrite fold_left_app, fold_dispatch_segments by assumption.
  cbn [fold_left]. unfold start_segment.
  rewrite dispatch_start by exact Hsafe.
  split; [reflexivity |].
  cbn [widgets set_start set_widgets set_hash set_fragment].
  rewrite all_selected_routes by (now apply routes_registered).
  now rewrite all_selected_reset, routes_values.
Qed.
End RoundTripTheorem.

(** A text widget registered under [search], with [cats] selected: its term
    is in the query, the codec round-trips on it, the hash is written and
    decoded, and no widget has [cats] selected afterwards. *)
Lemma hash_roundtrip_counterexample :
  exists o st0 st1 st2,
    buildQuery (Js.Int 0) Sample.search_state = Ok o st0 /\
    d_q (contents (heap st0) o) = [ {| qi_value := "cats" |} ] /\
    d_fq (contents (heap st0) o) = [] /\
    q_roundtrips Sample.env {| qi_value := "cats" |} /\
    saveQueryToHash Sample.env o st0 = Ok tt st1 /\
    location_hash st1 = "#q=cats&start=0" /\
    loadQueryFromHash Sample.env st1 = Ok tt st2 /\
    all_selected (widgets st2) = [] /\
    ~ Permutation (all_selected (widgets st2))
        (map fq_value (d_fq (contents (heap st0) o))
         ++ map qi_value (d_q (contents (heap st0) o))).
Proof.
  eexists _, _, _, _.
  split; [vm_compute; reflexivity |].
  split; [vm_compute; reflexivity |].
  split; [vm_compute; reflexivity |].
  split; [split; reflexivity |].
  split; [vm_compute; reflexivity |].
  split; [vm_compute; reflexivity |].
  split; [vm_compute; reflexivity |].
  split; [vm_compute; reflexivity |].
  vm_compute. intros Hp. apply Permutation_length in Hp. discriminate Hp.
Qed.

(** ** The scenario of the term [cats] *)

(** C6, as the code has it: base filters [{q: [], fq: [], fl: ["title"]}]
    and one widget [text] that appends its terms to [q].  Selecting [cats]
    on [text] gives the state [cats_state]; there [buildQuery 0] returns a
    query object with [q = [cats]], [fl = ["title"]] and [start = 0];
    [buildQueryString] on it appends [id], so that [fl = ["title"; "id"]],
    and returns a string that contains [q=cats] followed by a space and
    [fl=title,id], and does not contain [q=cats%20]; [saveQueryToHash] makes
    the hash [#q=cats&start=0].  The codec is any that leaves [cats] as it
    is, the browser any that keeps this fragment as written. *)
Theorem cats_scenario env :
  QueryItem_toSolr env false {| qi_value := "cats" |} = "cats" ->
  QueryItem_toHash env {| qi_value := "cats" |} = "cats" ->
  url_fragment env "q=cats&start=0" = "q=cats&start=0" ->
  exists o st1 str st2 st3,
    call_bool "text" (widget_selectItems ["cats"])
      (Sample.manager [] [] ["title"] [("text", Sample.text_widget [])])
      = Ok true Sample.cats_state /\
    buildQuery (Js.Int 0) Sample.cats_state = Ok o st1 /\
    contents (heap st1) o =
      {| d_fields := []; d_dates := []; d_q := [ {| qi_value := "cats" |} ];
         d_fl := ["title"]; d_fq := []; d_start := Js.Int 0;
         d_rows := Js.Int 0; d_sort := None |} /\
    buildQueryString env o false st1 = Ok str st2 /\
    d_fl (contents (heap st2) o) = ["title"; "id"] /\
    Js.includes "q=cats " str = true /\
    Js.includes "fl=title,id" str = true /\
    Js.includes "q=cats%20" str = false /\
    saveQueryToHash env o st2 = Ok tt st3 /\
    location_hash st3 = "#q=cats&start=0" /\
    hash st3 = "#q=cats&start=0".
Proof.
  intros Hsolr Hhash Hurl.
  eexists _, _, _, _, _.
  split; [reflexivity |].
  split; [vm_compute; reflexivity |].
  match goal with
  | |- contents ?h ?o = ?d /\ _ =>
      assert (Hd : contents h o = d) by (vm_compute; reflexivity)
  end.
  split; [exact Hd |].
  split; [apply buildQueryString_eq |].
  split; [vm_compute; reflexivity |].
  match goal with
  | |- Js.includes _ ?s = _ /\ _ =>
      assert (Hstr : s =
        "facet=true&facet.limit=40&facet.sort=true&facet.mincount=1&hl=true&q=cats &fl=title,id&rows=0&start=0&hl.fl=body")
  end.
  { rewrite Hd. unfold query_string, q_spaced.
    cbn [d_fields d_dates d_q d_fl d_fq d_start d_rows d_sort map cat
         fold_right].
    match goal with
    | |- context [read ?s ?l] =>
        replace (read s l) with [ {| qi_value := "cats" |} ]
          by (vm_compute; reflexivity)
    end.
    cbn [map cat fold_right]. rewrite Hsolr. vm_compute. reflexivity. }
  rewrite Hstr.
  split; [vm_compute; reflexivity |].
  split; [vm_compute; reflexivity |].
  split; [vm_compute; reflexivity |].
  split; [apply saveQueryToHash_eq |].
  match goal with
  | |- context [fragment_of env ?d] =>
      assert (Hfrag : fragment_of env d = "q=cats&start=0")
  end.
  { unfold fragment_of, segments, start_segment.
    match goal with
    | |- context [d_fq ?d] =>
        replace (d_fq d) with (@nil FilterQueryItem) by (vm_compute; reflexivity)
    end.
    match goal with
    | |- context [d_q ?d] =>
        replace (d_q d) with [ {| qi_value := "cats" |} ]
          by (vm_compute; reflexivity)
    end.
    match goal with
    | |- context [d_start ?d] =>
        replace (d_start d) with (Js.Int 0) by (vm_compute; reflexivity)
    end.
    cbn [map app cat fold_right]. rewrite Hhash. reflexivity. }
  rewrite Hfrag, Hurl. split; reflexivity.
Qed.

(** The same through the entry point: [selectItems "text" ["cats"]] with the
    sample transport ends normally with the hash [#q=cats&start=0]. *)
Example selectItems_cats :
  exists st',
    selectItems Sample.env Sample.hooks "text" ["cats"]
      (Sample.manager [] [] ["title"] [("text", Sample.text_widget [])])
      = Ok tt st' /\
    location_hash st' = "#q=cats&start=0" /\
    hash st' = "#q=cats&start=0".
Proof.
  eexists. split; [vm_compute; reflexivity |].
  split; vm_compute; reflexivity.
Qed.

(** With [executeRequest] as AbstractManager defines it, the request throws
    before the hash is saved. *)
Example selectItems_cats_abstract :
  exists st',
    selectItems Sample.env (abstract_hooks Sample.widget) "text" ["cats"]
      (Sample.manager [] [] ["title"] [("text", Sample.text_widget [])])
      = Err (Thrown "Abstract method executeRequest") st' /\
    location_hash st' = "" /\
    hash st' = "".
Proof.
  eexists. split; [vm_compute; reflexivity |].
  split; vm_compute; reflexivity.
Qed.

(** With the sample codec, which percent-encodes: the query object that
    [buildQuery] returns has [fl = ["title"]], and the string that
    [buildQueryString] returns does not contain [q=cats%20]. *)
Lemma cats_scenario_counterexample :
  exists o st1 str st2,
    buildQuery (Js.Int 0) Sample.cats_state = Ok o st1 /\
    d_fl (contents (heap st1) o) = ["title"] /\
    d_fl (contents (heap st1) o) <> ["title"; "id"] /\
    buildQueryString Sample.env o false st1 = Ok str st2 /\
    Js.includes "q=cats%20" str = false.
Proof.
  eexists _, _, _, _.
  split; [vm_compute; reflexivity |].
  split; [vm_compute; reflexivity |].
  split; [vm_compute; discriminate |].
  split; [vm_compute; reflexivity |].
  vm_compute. reflexivity.
Qed.

(** ** The theorems on the sample manager *)

Ltac sample_unique :=
  unfold unique_ids; apply (bool_decide_unpack _); vm_compute; exact I.

Ltac sample_live :=
  unfold filters_live; repeat split; apply elem_of_dom; eexists; reflexivity.


Lemma base_filters_never_mutated_witness :
  unique_ids (widgets Sample.two_widgets) /\
  filters_live Sample.two_widgets /\
  exists o st1,
    buildQuery (Js.Int 0) Sample.two_widgets = Ok o st1 /\
    qo_q o <> filters_q Sample.two_widgets /\
    qo_fq o <> filters_fq Sample.two_widgets /\
    qo_fl o <> filters_fl Sample.two_widgets /\
    qo_fields o <> filters_fl Sample.two_widgets /\
    base_filters st1 = base_filters Sample.two_widgets /\
    forall ops : list CycleOp,
      exists st2, run_ops Sample.env o ops st1 = Ok tt st2 /\
                  base_filters st2 = base_filters Sample.two_widgets.
Proof.
  split; [sample_unique |]. split; [sample_live |].
  apply (base_filters_never_mutated Sample.env Sample.two_widgets (Js.Int 0));
    [sample_unique | sample_live].
Defined.


Lemma load_var_other_witness :
  String.prefix "fq=" "rows=5" = false /\
  String.prefix "q=" "rows=5" = false /\
  load_var Sample.env "rows=5" Sample.two_widgets = Ok tt Sample.two_widgets.
Proof.
  split; [reflexivity |]. split; [reflexivity |].
  apply (load_var_other Sample.env Sample.two_widgets "rows=5"); reflexivity.
Defined.


Lemma selectOnlyItems_adds_witness :
  unique_ids (widgets Sample.two_widgets) /\
  lookup_widget "tags" (widgets Sample.two_widgets)
    = Some (Sample.mkWidget "tags" (Some "tag") ["x"]) /\
  exists ws',
    selectOnlyItems Sample.env Sample.hooks "tags" ["y"] Sample.two_widgets
      = doRequest Sample.env Sample.hooks (Js.Int 0)
          (set_widgets Sample.two_widgets ws') /\
    map fst ws' = map fst (widgets Sample.two_widgets) /\
    (forall id w, id <> "tags" ->
       lookup_widget id (widgets Sample.two_widgets) = Some w ->
       lookup_widget id ws' = Some (widget_deselectAll w) /\
       selected (widget_deselectAll w) = []) /\
    lookup_widget "tags" ws'
      = Some (widget_selectItems ["y"]
                (Sample.mkWidget "tags" (Some "tag") ["x"])).2 /\
    Permutation
      (selected (widget_selectItems ["y"]
                   (Sample.mkWidget "tags" (Some "tag") ["x"])).2)
      (selected (Sample.mkWidget "tags" (Some "tag") ["x"]) ++ ["y"]).
Proof.
  split; [sample_unique |]. split; [reflexivity |].
  apply (selectOnlyItems_adds Sample.env Sample.hooks Sample.two_widgets
           "tags" ["y"] (Sample.mkWidget "tags" (Some "tag") ["x"]));
    [sample_unique | reflexivity].
Defined.

Lemma hash_roundtrip_witness :
  exists st1 st2,
    saveQueryToHash Sample.env (Sample.built Sample.two_widgets).1
      (Sample.built Sample.two_widgets).2 = Ok tt st1 /\
    loadQueryFromHash Sample.env st1 = Ok tt st2 /\
    start st2 = Js.Int 0 /\
    Permutation (all_selected (widgets st2)) (["x"] ++ ["old"]).
Proof.
  assert (Hfq : d_fq (contents (heap (Sample.built Sample.two_widgets).2)
                        (Sample.built Sample.two_widgets).1)
                = [ {| fq_widgetId := "tags"; fq_field := "tag";
                       fq_value := "x" |} ])
    by (vm_compute; reflexivity).
  assert (Hq : d_q (contents (heap (Sample.built Sample.two_widgets).2)
                      (Sample.built Sample.two_widgets).1)
               = [ {| qi_value := "old" |} ])
    by (vm_compute; reflexivity).
  assert (Hrt := hash_roundtrip Sample.env (Sample.built Sample.two_widgets).2
                   (Sample.built Sample.two_widgets).1).
  rewrite Hfq, Hq in Hrt. apply Hrt.
  - sample_unique.
  - vm_compute. reflexivity.
  - constructor; [| constructor].
    split; [split; vm_compute; reflexivity | discriminate].
  - constructor; [| constructor].
    split; [split; vm_compute; reflexivity | discriminate].
  - vm_compute. reflexivity.
Defined.

Lemma cats_scenario_witness :
  exists o st1 str st2 st3,
    call_bool "text" (widget_selectItems ["cats"])
      (Sample.manager [] [] ["title"] [("text", Sample.text_widget [])])
      = Ok true Sample.cats_state /\
    buildQuery (Js.Int 0) Sample.cats_state = Ok o st1 /\
    contents (heap st1) o =
      {| d_fields := []; d_dates := []; d_q := [ {| qi_value := "cats" |} ];
         d_fl := ["title"]; d_fq := []; d_start := Js.Int 0;
         d_rows := Js.Int 0; d_sort := None |} /\
    buildQueryString Sample.env o false st1 = Ok str st2 /\
    d_fl (contents (heap st2) o) = ["title"; "id"] /\
    Js.includes "q=cats " str = true /\
    Js.includes "fl=title,id" str = true /\
    Js.includes "q=cats%20" str = false /\
    saveQueryToHash Sample.env o st2 = Ok tt st3 /\
    location_hash st3 = "#q=cats&start=0" /\
    hash st3 = "#q=cats&start=0".
Proof.
  apply (cats_scenario Sample.env); reflexivity.
Defined.

(** * Further properties of the manager *)

(** ** Decoding the URL hash *)

Section DecodeMore.
Context {W : Type} `{Widget W}.
Variable env : Env.
Implicit Types (st : State W) (seg : string).

(** X1: on an empty fragment [loadQueryFromHash] returns normally and
    leaves the state as it is: nothing is reset, what the widgets selected
    when they were registered stays selected. *)
Theorem loadQueryFromHash_empty st :
  fragment st = "" ->
  loadQueryFromHash env st = Ok tt st.
Proof.
  intros Hfrag. unfold loadQueryFromHash.
  unfold bind at 1. unfold gets at 1.
  rewrite length_location_hash, Hfrag.
  unfold bind, ret, gets. rewrite drop_location_hash, Hfrag.
  reflexivity.
Qed.

Lemma same_but_selection_refl st : same_but_selection st st.
Proof. unfold same_but_selection. tauto. Qed.

Lemma same_but_selection_trans st1 st2 st3 :
  same_but_selection st1 st2 -> same_but_selection st2 st3 ->
  same_but_selection st1 st3.
Proof.
  unfold same_but_selection.
  intros (A1 & A2 & A3 & A4 & A5 & A6 & A7 & A8)
         (B1 & B2 & B3 & B4 & B5 & B6 & B7 & B8).
  repeat split; congruence.
Qed.

Lemma dispatch_same seg st : same_but_selection st (dispatch env seg st).
Proof.
  unfold dispatch.
  destruct (String.prefix "fq=" seg);
    [unfold same_but_selection; cbn [widgets set_widgets filters_q filters_fq
       filters_fl hlFl hash heap fragment]; rewrite route_keys; tauto |].
  destruct (String.prefix "q=" seg);
    [unfold same_but_selection; cbn [widgets set_widgets filters_q filters_fq
       filters_fl hlFl hash heap fragment]; rewrite route_keys; tauto |].
  destruct (String.prefix "start=" seg);
    [unfold same_but_selection; simpl; tauto |].
  apply same_but_selection_refl.
Qed.

Lemma dispatch_all_same (segs : list string) st :
  same_but_selection st (dispatch_all env segs st).
Proof.
  unfold dispatch_all. revert st. induction segs as [|seg segs IH]; intros st.
  - apply same_but_selection_refl.
  - simpl. eapply same_but_selection_trans; [apply dispatch_same | apply IH].
Qed.

Lemma reset_same st : same_but_selection st (reset_if_navigated st).
Proof.
  unfold reset_if_navigated.
  destruct (fragment st); [apply same_but_selection_refl |].
  unfold same_but_selection, reset_all. simpl. rewrite map_map. simpl.
  tauto.
Qed.

Lemma decode_same st : same_but_selection st (decode env st).
Proof.
  unfold decode.
  eapply same_but_selection_trans; [apply reset_same | apply dispatch_all_same].
Qed.

(** The loop over the segments either decodes them all, or stops at the
    first that cannot be routed, with the segments before it decoded. *)
Lemma for_in_load_var_cases (segs : list string) st :
  (Forall (routable env (widgets st)) segs /\
   for_in segs (fun v _ => load_var env v) tt st
     = Ok tt (dispatch_all env segs st)) \/
  (exists pre seg post,
     segs = pre ++ seg :: post /\
     Forall (routable env (widgets st)) pre /\
     names_inherited env (widgets st) seg = true /\
     for_in segs (fun v _ => load_var env v) tt st
       = Err TypeError (dispatch_all env pre st)).
Proof.
  assert (Hfirst :
    Forall (routable env (widgets st)) segs \/
    exists pre seg post,
      segs = pre ++ seg :: post /\
      Forall (routable env (widgets st)) pre /\
      names_inherited env (widgets st) seg = true).
  { induction segs as [|seg segs IH]; [left; constructor |].
    destruct (names_inherited env (widgets st) seg) eqn:Hseg.
    - right. exists [], seg, segs. repeat split; [constructor | exact Hseg].
    - destruct IH as [Hall | (pre & x & post & -> & Hpre & Hx)].
      + left. now constructor.
      + right. exists (seg :: pre), x, post.
        repeat split; [now constructor | exact Hx]. }
  destruct Hfirst as [Hall | (pre & seg & post & -> & Hpre & Hseg)].
  - left. split; [exact Hall | now apply for_in_load_var].
  - right. exists pre, seg, post.
    repeat split; try assumption. now apply for_in_load_var_raises.
Qed.

(** X2: whether [loadQueryFromHash] returns normally or raises (a
    TypeError, the only exception it raises), it touches nothing but the
    widgets' own state and the start offset: the registered ids and their
    order, the base filters, the heap, the cached hash and the fragment are
    as before. *)
Theorem loadQueryFromHash_frame st :
  unique_ids (widgets st) ->
  exists st',
    (loadQueryFromHash env st = Ok tt st' \/
     loadQueryFromHash env st = Err TypeError st') /\
    same_but_selection st st' /\
    unique_ids (widgets st').
Proof.
  intros Hu. rewrite (loadQueryFromHash_eq env st Hu).
  assert (Hk : forall segs,
             same_but_selection st (dispatch_all env segs (reset_if_navigated st)) /\
             unique_ids (widgets (dispatch_all env segs (reset_if_navigated st)))).
  { intros segs.
    assert (Hs : same_but_selection st
                   (dispatch_all env segs (reset_if_navigated st)))
      by (eapply same_but_selection_trans;
          [apply reset_same | apply dispatch_all_same]).
    split; [exact Hs |]. unfold unique_ids. destruct Hs as (Hk & _).
    now rewrite Hk. }
  destruct (for_in_load_var_cases (Js.split "&" (fragment st))
              (reset_if_navigated st))
    as [[_ Hok] | (pre & seg & post & _ & _ & _ & Herr)].
  - eexists. split; [left; exact Hok | apply Hk].
  - eexists. split; [right; exact Herr | apply Hk].
Qed.

Lemma dispatch_keeps_start seg st :
  String.prefix "start=" seg = false ->
  start (dispatch env seg st) = start st.
Proof.
  intros Hs. unfold dispatch. rewrite Hs.
  destruct (String.prefix "fq=" seg); [reflexivity |].
  destruct (String.prefix "q=" seg); reflexivity.
Qed.

Lemma dispatch_all_keeps_start (segs : list string) st :
  Forall (fun seg => String.prefix "start=" seg = false) segs ->
  start (dispatch_all env segs st) = start st.
Proof.
  unfold dispatch_all. intros Hsegs. revert st.
  induction Hsegs as [|seg segs Hseg _ IH]; intros st; [reflexivity |].
  simpl. rewrite IH. now apply dispatch_keeps_start.
Qed.

(** X3: a fragment with no segment that begins with [start=] leaves the
    start offset at the value it had, whether [loadQueryFromHash] returns
    normally or raises: the offset is not reset. *)
Theorem loadQueryFromHash_keeps_start st :
  unique_ids (widgets st) ->
  Forall (fun seg => String.prefix "start=" seg = false)
         (Js.split "&" (fragment st)) ->
  start (final_state (loadQueryFromHash env st)) = start st.
Proof.
  intros Hu Hsegs. rewrite (loadQueryFromHash_eq env st Hu).
  assert (Hr : start (reset_if_navigated st) = start st)
    by (unfold reset_if_navigated; now destruct (fragment st)).
  destruct (for_in_load_var_cases (Js.split "&" (fragment st))
              (reset_if_navigated st))
    as [[_ Hok] | (pre & seg & post & Hsplit & _ & _ & Herr)].
  - rewrite Hok. cbn [final_state].
    now rewrite dispatch_all_keeps_start.
  - rewrite Herr. cbn [final_state].
    rewrite dispatch_all_keeps_start; [exact Hr |].
    rewrite Hsplit in Hsegs. now apply Forall_app in Hsegs as [Hpre _].
Qed.

Lemma split_at_sep sep a b :
  Js.split sep (a +:+ String sep b) = Js.split sep a ++ Js.split sep b.
Proof.
  induction a as [|c a IH]; simpl.
  - now rewrite Ascii.eqb_refl.
  - destruct (Ascii.eqb c sep); rewrite IH; [reflexivity |].
    destruct (Js.split sep a) as [|p r] eqn:Hs;
      [now apply split_nonempty in Hs | reflexivity].
Qed.

(** Whatever the segments are, the last piece of the written fragment is
    the start segment. *)
Lemma split_fragment_last (segs : list string) (last : string) :
  has_char "&" last = false ->
  exists pre,
    Js.split "&" (cat (map (fun s => s +:+ "&") segs) +:+ last) = pre ++ [last].
Proof.
  intros Hlast. induction segs as [|s segs (pre & IH)].
  - exists []. simpl. now apply split_free.
  - exists (Js.split "&" s ++ pre). simpl. rewrite !append_assoc.
    change ("&" +:+ cat (map (fun s => s +:+ "&") segs) +:+ last)
      with (String "&" (cat (map (fun s => s +:+ "&") segs) +:+ last)).
    now rewrite split_at_sep, IH, app_assoc.
Qed.

(** Whatever the segments are, decoding the written fragment ends with
    the start segment: the start offset is what [parseInt] makes of the text
    of the saved start offset. *)
Lemma roundtrip_start st (o : QueryObj) :
  unique_ids (widgets st) ->
  url_fragment env (fragment_of env (contents (heap st) o))
    = fragment_of env (contents (heap st) o) ->
  has_char "&" (Js.toString (qo_start o)) = false ->
  Forall (routable env (widgets st))
         (Js.split "&" (fragment_of env (contents (heap st) o))) ->
  exists st1 st2,
    saveQueryToHash env o st = Ok tt st1 /\
    loadQueryFromHash env st1 = Ok tt st2 /\
    start st2 = Js.parseInt (Js.toString (qo_start o)).
Proof.
  intros Hu Hurl Hfree Hr. rewrite saveQueryToHash_eq, Hurl.
  eexists _, _. split; [reflexivity |].
  rewrite loadQueryFromHash_routed by assumption.
  split; [reflexivity |].
  unfold decode, dispatch_all. cbn [fragment set_hash set_fragment widgets].
  assert (Hlast : has_char "&" (start_segment (contents (heap st) o)) = false).
  { unfold start_segment. rewrite has_char_append. simpl. exact Hfree. }
  destruct (split_fragment_last
              (segments env (contents (heap st) o))
              (start_segment (contents (heap st) o)) Hlast) as (pre & Hpre).
  unfold fragment_of. rewrite Hpre, fold_left_app. cbn [fold_left].
  unfold start_segment, dispatch. cbn [d_start contents].
  change (String.prefix "fq=" ("start=" +:+ Js.toString (qo_start o)))
    with false.
  change (String.prefix "q=" ("start=" +:+ Js.toString (qo_start o)))
    with false.
  rewrite prefix_append.
  change 6 with (String.length "start="). now rewrite drop_append.
Qed.

(** X4: the start offset survives the round trip through the hash for
    every item codec, also one whose text contains [&]: when the browser
    keeps the fragment as written, the start offset is a safe integer and
    every piece of the written fragment can be routed or dropped,
    [loadQueryFromHash] after [saveQueryToHash] leaves the start offset of
    the query object in [this.start]. *)
Theorem start_survives_roundtrip st (o : QueryObj) :
  unique_ids (widgets st) ->
  url_fragment env (fragment_of env (contents (heap st) o))
    = fragment_of env (contents (heap st) o) ->
  Js.isSafeInteger (qo_start o) = true ->
  Forall (routable env (widgets st))
         (Js.split "&" (fragment_of env (contents (heap st) o))) ->
  exists st1 st2,
    saveQueryToHash env o st = Ok tt st1 /\
    loadQueryFromHash env st1 = Ok tt st2 /\
    start st2 = qo_start o.
Proof.
  intros Hu Hurl Hsafe Hr.
  destruct (roundtrip_start st o Hu Hurl (has_char_toString _ Hsafe) Hr)
    as (st1 & st2 & Hsave & Hload & Hstart).
  exists st1, st2. split; [exact Hsave |]. split; [exact Hload |].
  now rewrite Hstart, parseInt_toString.
Qed.

(** X23: beyond the integers that JavaScript prints digit by digit, the
    start offset does not survive the round trip: the offset 10^21 is
    written as [start=1e+21], and read back as the offset 1. *)
Theorem start_exponent_roundtrip st (o : QueryObj) :
  unique_ids (widgets st) ->
  url_fragment env (fragment_of env (contents (heap st) o))
    = fragment_of env (contents (heap st) o) ->
  Forall (routable env (widgets st))
         (Js.split "&" (fragment_of env (contents (heap st) o))) ->
  qo_start o = Js.Int (10 ^ 21) ->
  exists st1 st2 pre,
    saveQueryToHash env o st = Ok tt st1 /\
    Js.split "&" (fragment st1) = pre ++ ["start=1e+21"] /\
    loadQueryFromHash env st1 = Ok tt st2 /\
    start st2 = Js.Int 1.
Proof.
  intros Hu Hurl Hr Hstart.
  assert (Htext : Js.toString (qo_start o) = "1e+21")
    by (rewrite Hstart; vm_compute; reflexivity).
  assert (Hfree : has_char "&" (Js.toString (qo_start o)) = false)
    by (now rewrite Htext).
  destruct (roundtrip_start st o Hu Hurl Hfree Hr)
    as (st1 & st2 & Hsave & Hload & Hs).
  assert (Hlast : has_char "&" (start_segment (contents (heap st) o)) = false).
  { unfold start_segment. rewrite has_char_append. simpl. exact Hfree. }
  destruct (split_fragment_last
              (segments env (contents (heap st) o))
              (start_segment (contents (heap st) o)) Hlast) as (pre & Hpre).
  exists st1, st2, pre. split; [exact Hsave |]. split; [| split].
  - rewrite saveQueryToHash_eq in Hsave. injection Hsave as <-.
    cbn [fragment set_hash set_fragment]. rewrite Hurl.
    unfold fragment_of. rewrite Hpre. unfold start_segment.
    cbn [d_start contents]. now rewrite Htext.
  - exact Hload.
  - rewrite Hs, Htext. reflexivity.
Qed.

(** X22: a fragment with a filter segment whose widget id is not
    registered and is a name that every object inherits makes
    [loadQueryFromHash] raise a TypeError at that segment: the widgets have
    been reset and the segments before it decoded, the segments after it (a
    start offset, say) are not read; and [init] raises with it, before any
    request is made. *)
Theorem loadQueryFromHash_raises hooks st (pre : list string) (seg : string)
  (post : list string) :
  unique_ids (widgets st) ->
  Js.split "&" (fragment st) = pre ++ seg :: post ->
  Forall (routable env (widgets st)) pre ->
  names_inherited env (widgets st) seg = true ->
  loadQueryFromHash env st
    = Err TypeError
        (dispatch_all env pre (set_widgets st (reset_all (widgets st)))) /\
  init env hooks st
    = Err TypeError
        (dispatch_all env pre (set_widgets st (reset_all (widgets st)))).
Proof.
  intros Hu Hsplit Hpre Hseg.
  assert (Hload : loadQueryFromHash env st
    = Err TypeError
        (dispatch_all env pre (set_widgets st (reset_all (widgets st))))).
  { rewrite (loadQueryFromHash_eq env st Hu), Hsplit.
    assert (Hreset : reset_if_navigated st
                     = set_widgets st (reset_all (widgets st))).
    { unfold reset_if_navigated.
      destruct (fragment st) as [|c f] eqn:Hfrag; [| reflexivity].
      simpl in Hsplit.
      destruct pre as [|p pre]; simpl in Hsplit.
      - injection Hsplit as <- _. discriminate Hseg.
      - injection Hsplit as _ Hrest. now destruct pre. }
    rewrite Hreset. apply for_in_load_var_raises.
    - eapply Forall_impl; [exact Hpre |]. intros x Hx.
      unfold routable in *. cbn [widgets set_widgets].
      now rewrite (names_inherited_keys env _ _ _ (reset_all_keys (widgets st))).
    - cbn [widgets set_widgets].
      now rewrite (names_inherited_keys env _ _ _ (reset_all_keys (widgets st))). }
  split; [exact Hload |].
  unfold init, bind. now rewrite Hload.
Qed.
End DecodeMore.

Section DecodeSelection.
Context {W : Type} `{SelectionWidget W}.
Variable env : Env.
Implicit Types (st : State W) (ws : registry W).

Lemma all_selected_route_any id v ws ws0 :
  map fst ws = map fst ws0 ->
  Permutation (all_selected (route id v ws))
    (all_selected ws ++ match lookup_widget id ws0 with
                        | Some _ => [v]
                        | None => []
                        end).
Proof.
  intros Hk. destruct (lookup_widget id ws0) as [w0|] eqn:Hl0.
  - apply all_selected_route. unfold registered. intros Hn.
    apply (lookup_widget_keys id ws ws0) in Hn; congruence.
  - unfold route.
    rewrite (lookup_widget_keys id ws0 ws) by (congruence || assumption).
    now rewrite app_nil_r.
Qed.

Lemma all_selected_dispatch seg st ws0 :
  map fst (widgets st) = map fst ws0 ->
  Permutation (all_selected (widgets (dispatch env seg st)))
    (all_selected (widgets st) ++ delivered env ws0 [seg]).
Proof.
  intros Hk. unfold delivered, segment_target, dispatch. simpl.
  destruct (String.prefix "fq=" seg).
  { cbn [widgets set_widgets]. rewrite app_nil_r.
    now apply all_selected_route_any. }
  destruct (String.prefix "q=" seg).
  { cbn [widgets set_widgets]. rewrite app_nil_r.
    now apply all_selected_route_any. }
  destruct (String.prefix "start=" seg); simpl; now rewrite app_nil_r.
Qed.

Lemma all_selected_fold_dispatch (segs : list string) st ws0 :
  map fst (widgets st) = map fst ws0 ->
  Permutation
    (all_selected (widgets (dispatch_all env segs st)))
    (all_selected (widgets st) ++ delivered env ws0 segs).
Proof.
  unfold dispatch_all.
  revert st. induction segs as [|seg segs IH]; intros st Hk.
  - simpl. now rewrite app_nil_r.
  - simpl fold_left. rewrite IH.
    + rewrite (all_selected_dispatch seg st ws0 Hk), <- app_assoc.
      apply Permutation_app_head. unfold delivered. simpl.
      now rewrite app_nil_r.
    + destruct (dispatch_same env seg st) as (Hk' & _). congruence.
Qed.

(** X5: after [loadQueryFromHash] on a non-empty fragment of which every
    segment can be routed or dropped, what is selected over all widgets is
    what the fragment delivers, as a multiset: the values of the [fq=]
    segments whose widget id is registered and, if a widget is registered
    under [text], of the [q=] segments.  Nothing of what was selected before
    is left. *)
Theorem loadQueryFromHash_selection st :
  unique_ids (widgets st) ->
  fragment st <> "" ->
  Forall (routable env (widgets st)) (Js.split "&" (fragment st)) ->
  exists st',
    loadQueryFromHash env st = Ok tt st' /\
    Permutation (all_selected (widgets st'))
                (delivered env (widgets st) (Js.split "&" (fragment st))).
Proof.
  intros Hu Hne Hr. exists (decode env st).
  split; [now apply loadQueryFromHash_routed |].
  unfold decode, reset_if_navigated.
  destruct (fragment st) as [|c f] eqn:Hfrag; [congruence |].
  rewrite (all_selected_fold_dispatch _ _ (widgets st)).
  - cbn [widgets set_widgets]. now rewrite all_selected_reset.
  - cbn [widgets set_widgets]. unfold reset_all. now rewrite map_map.
Qed.
End DecodeSelection.

(** ** The request *)

Section Request.
Context {W : Type} `{Widget W}.
Variable env : Env.
Implicit Types (st : State W) (ws : registry W).

Lemma update_widget_same id (w : W) ws :
  lookup_widget id ws = Some w -> update_widget id w ws = ws.
Proof.
  induction ws as [|[k w0] ws IH]; simpl; [reflexivity |].
  destruct (String.eqb_spec k id) as [->|Hne].
  - now intros [= ->].
  - intros Hl. now rewrite IH.
Qed.

(** A loop whose body updates the widget it visits, by a function that may
    read the heap. *)
Lemma for_in_updates_from (body : string -> unit -> M (State W) unit)
  (g : Heap -> string -> W -> W) :
  (forall id st w,
      lookup_widget id (widgets st) = Some w ->
      body id tt st =
      Ok tt (set_widgets st (update_widget id (g (heap st) id w) (widgets st)))) ->
  forall todo done st,
    widgets st = done ++ todo ->
    NoDup (map fst (done ++ todo)) ->
    for_in (map fst todo) body tt st =
    Ok tt (set_widgets st
             (done ++ map (fun e => (e.1, g (heap st) e.1 e.2)) todo)).
Proof.
  intros Hbody. induction todo as [|[k w] todo IH]; intros done st Hws Hnd.
  - simpl. unfold ret. rewrite app_nil_r in *. rewrite <- Hws.
    now rewrite set_widgets_id.
  - simpl. unfold bind.
    assert (Hk : ~ In k (map fst done)).
    { rewrite map_app in Hnd. apply NoDup_app in Hnd as (_ & Hdis & _).
      intros Hin. apply (Hdis k); [now apply list_elem_of_In |].
      simpl. now left. }
    assert (Hl : lookup_widget k (widgets st) = Some w).
    { rewrite Hws, lookup_widget_app_absent by exact Hk.
      simpl. now rewrite String.eqb_refl. }
    rewrite (Hbody k st w Hl). rewrite Hws.
    rewrite update_widget_app_absent by exact Hk.
    simpl. rewrite String.eqb_refl.
    rewrite (IH (done ++ [(k, g (heap st) k w)])).
    + simpl. now rewrite <- app_assoc.
    + simpl. now rewrite <- app_assoc.
    + rewrite <- app_assoc. simpl.
      rewrite !map_app in *. simpl in *. exact Hnd.
Qed.

Lemma for_in_widgets_updates (body : string -> unit -> M (State W) unit)
  (g : Heap -> string -> W -> W) st :
  (forall id st w,
      lookup_widget id (widgets st) = Some w ->
      body id tt st =
      Ok tt (set_widgets st (update_widget id (g (heap st) id w) (widgets st)))) ->
  unique_ids (widgets st) ->
  for_in_widgets body tt st =
  Ok tt (set_widgets st (map (fun e => (e.1, g (heap st) e.1 e.2)) (widgets st))).
Proof.
  intros Hbody Hu. unfold for_in_widgets, bind, gets.
  now rewrite (for_in_updates_from body g Hbody (widgets st) [] st).
Qed.

Lemma built_contents st (s : Js.Number) :
  contents (alter_all_in (widgets st) (new_heap st) (new_query st s)).1
           (built_object st s)
  = alter_all (widgets st) (base_query st s).
Proof.
  unfold built_object.
  rewrite contents_alter_all_in by apply new_query_fresh.
  now rewrite new_query_contents.
Qed.

(** [doRequest] up to the call of the transport. *)
Lemma doRequest_eq hooks st (s : Js.Number) :
  unique_ids (widgets st) ->
  doRequest env hooks s st =
  (do! executeRequest hooks (built_object st s) in
   saveQueryToHash env (built_object st s)) (announced st s).
Proof.
  intros Hu. unfold doRequest. unfold bind at 1.
  rewrite (buildQuery_eq st s Hu). fold (built_object st s).
  unfold bind at 1.
  rewrite (for_in_widgets_calls _ (fun _ => widget_startAnimation))
    by (intros; reflexivity || exact Hu).
  unfold bind at 1.
  rewrite (for_in_widgets_updates _
             (fun h _ => widget_displayQuery (contents h (built_object st s)))).
  - unfold announced. cbn [widgets heap set_widgets set_heap].
    rewrite map_map. reflexivity.
  - intros id st' w Hl. unfold call. now rewrite Hl.
  - cbn [widgets set_widgets set_heap]. unfold unique_ids.
    now rewrite map_map.
Qed.

(** X6: with [executeRequest] as AbstractManager defines it, every
    request ends in the exception ['Abstract method executeRequest'], after
    the widgets were told to animate and display; the hash is not saved:
    cached hash, fragment and start offset are as before, and so are the
    registered ids. *)
Theorem doRequest_abstract_throws st (s : Js.Number) :
  unique_ids (widgets st) ->
  exists st',
    doRequest env (abstract_hooks W) s st
      = Err (Thrown "Abstract method executeRequest") st' /\
    hash st' = hash st /\ fragment st' = fragment st /\
    start st' = start st /\
    map fst (widgets st') = map fst (widgets st).
Proof.
  intros Hu. rewrite (doRequest_eq _ st s Hu).
  exists (announced st s). split; [reflexivity |].
  unfold announced. cbn [hash fragment start widgets set_widgets set_heap].
  repeat split. now rewrite map_map.
Qed.

(** X7: with a transport that returns normally and leaves the term and
    filter arrays alone, [doRequest s] returns normally and writes to the
    URL the fragment of the query that the widgets altered, starting from
    the base filters at offset [s]; the cached hash is the live hash; and
    [this.start] is not assigned: it keeps the value it had, whatever [s]
    is. *)
Theorem doRequest_saves hooks st (s : Js.Number) :
  transport_frame hooks ->
  unique_ids (widgets st) ->
  exists st',
    doRequest env hooks s st = Ok tt st' /\
    fragment st' =
      url_fragment env
        (fragment_of env (alter_all (widgets st) (base_query st s))) /\
    hash st' = location_hash st' /\
    start st' = start st.
Proof.
  intros Htf Hu. rewrite (doRequest_eq hooks st s Hu). unfold bind.
  destruct (Htf (built_object st s) (announced st s))
    as (st3 & He & Hq & Hfq & Hs).
  rewrite He, saveQueryToHash_eq. eexists. split; [reflexivity |].
  cbn [fragment hash start set_hash set_fragment].
  split; [| split; [reflexivity | exact Hs]].
  f_equal. rewrite <- built_contents.
  unfold fragment_of, segments, start_segment, contents.
  cbn [d_fq d_q d_start]. rewrite Hq, Hfq. reflexivity.
Qed.
End Request.

(** ** The hash watcher *)

Section WatcherFacts.
Context {W : Type} `{Widget W}.
Variable env : Env.
Variable hooks : Hooks W.
Implicit Types (st : State W).

Lemma tick_quiet st :
  hash st = location_hash st ->
  tick env hooks st =
  Ok (match fragment st with EmptyString => Back | String _ _ => Stay end) st.
Proof.
  intros Hh. unfold tick. unfold bind at 1. unfold gets at 1.
  rewrite length_location_hash.
  destruct (fragment st) eqn:Hf; [reflexivity |].
  cbn [negb]. unfold bind, gets. now rewrite Hh, String.eqb_refl.
Qed.

(** X8: the watcher does not react to the manager's own write: right after
    [saveQueryToHash], [tick] neither reloads nor requests and leaves the
    state as it is, whatever the browser made of the written fragment (it
    asks for [history.back()] only if the browser left the fragment
    empty). *)
Theorem tick_after_save st (o : QueryObj) :
  exists st1,
    saveQueryToHash env o st = Ok tt st1 /\
    tick env hooks st1 =
    Ok (match fragment st1 with EmptyString => Back | String _ _ => Stay end)
       st1.
Proof.
  rewrite saveQueryToHash_eq. eexists. split; [reflexivity |].
  apply tick_quiet. reflexivity.
Qed.

Lemma init_eq st :
  unique_ids (widgets st) ->
  Forall (routable env (widgets st)) (Js.split "&" (fragment st)) ->
  init env hooks st =
  doRequest env hooks (start (decode env st)) (decode env st).
Proof.
  intros Hu Hr. unfold init, bind.
  now rewrite (loadQueryFromHash_routed env st Hu Hr).
Qed.

(** X9: [init] on a fragment whose last segment is [start=] followed by the
    text of a safe integer [n], and whose other segments can be routed or
    dropped, requests at offset [n]: the first request is [doRequest n] on
    the decoded state. *)
Theorem init_requests_at_start st (pre : list string) (n : Js.Number) :
  unique_ids (widgets st) ->
  Js.split "&" (fragment st) = pre ++ ["start=" +:+ Js.toString n] ->
  Js.isSafeInteger n = true ->
  Forall (routable env (widgets st)) pre ->
  exists st',
    loadQueryFromHash env st = Ok tt st' /\
    start st' = n /\
    init env hooks st = doRequest env hooks n st'.
Proof.
  intros Hu Hsplit Hsafe Hpre.
  assert (Hr : Forall (routable env (widgets st)) (Js.split "&" (fragment st))).
  { rewrite Hsplit. apply Forall_app. split; [exact Hpre |].
    constructor; [apply routable_start | constructor]. }
  exists (decode env st).
  split; [now apply loadQueryFromHash_routed |].
  assert (Hs : start (decode env st) = n).
  { unfold decode, dispatch_all. rewrite Hsplit, fold_left_app. cbn [fold_left].
    now rewrite dispatch_start. }
  split; [exact Hs |]. rewrite (init_eq st Hu Hr). now rewrite Hs.
Qed.

(** When the fragment is not empty and differs from the cached hash (a
    navigation), [tick] does what [init] does, and asks nothing of the
    browser's history. *)
Lemma tick_reloads st :
  fragment st <> "" ->
  hash st <> location_hash st ->
  tick env hooks st = (do! init env hooks in ret Stay) st.
Proof.
  intros Hf Hh. unfold tick. unfold bind at 1. unfold gets at 1.
  rewrite length_location_hash.
  destruct (fragment st) eqn:Hfrag; [congruence |].
  cbn [negb]. unfold bind at 1. unfold gets at 1.
  apply String.eqb_neq in Hh. rewrite Hh. cbn [negb].
  unfold init, bind.
  destruct (loadQueryFromHash env st); [| reflexivity].
  destruct (doInitialRequest env hooks s0); reflexivity.
Qed.
End WatcherFacts.

(** ** Registration *)

Section Registration.
Context {W : Type} `{Widget W}.
Variable hooks : Hooks W.
Implicit Types (st : State W) (ws : registry W).


(** X11: widgets with distinct ids that are registered one after the other
    in an empty registry contribute to the query in the order in which the
    registry is enumerated ([for_in_order]): the widgets whose id is an array
    index first, by ascending index, then the others in the order of their
    registration.  [buildQuery] returns the base query altered by the widgets
    in that order. *)
Theorem registration_order (l : list W) st (s : Js.Number) :
  widgets st = [] ->
  NoDup (map widget_id l) ->
  Forall (fun w => canAddWidget hooks w = true) l ->
  Forall (fun w => widget_id w <> "__proto__") l ->
  exists st1 o st2,
    register_all hooks l st = Ok tt st1 /\
    map fst (widgets st1) = map widget_id (for_in_order l) /\
    buildQuery s st1 = Ok o st2 /\
    contents (heap st2) o =
      fold_left (fun d w => widget_alterQuery (widget_afterAdditionToManager w) d)
                (for_in_order l) (base_query st s).
Proof.
  intros Hempty Hnd Hadm _.
  rewrite (register_all_empty hooks l st Hempty Hnd Hadm).
  set (st1 := set_widgets st _).
  assert (Hk : map fst (widgets st1) = map widget_id (for_in_order l))
    by (unfold st1; cbn [widgets set_widgets]; apply entries_keys).
  assert (Hu : unique_ids (widgets st1)).
  { unfold unique_ids. rewrite Hk.
    now rewrite (Permutation_map widget_id (for_in_order_perm l)). }
  eexists _, _, _. split; [reflexivity |]. split; [exact Hk |].
  split; [apply (buildQuery_eq st1 s Hu) |].
  cbn [heap set_heap]. fold (built_object st1 s). rewrite built_contents.
  unfold st1 at 1. cbn [widgets set_widgets]. now rewrite alter_all_map.
Qed.
End Registration.

(** ** Clearing selections *)

Section Clearing.
Context {W : Type} `{SelectionWidget W}.
Variable env : Env.
Variable hooks : Hooks W.
Implicit Types (st : State W) (ws : registry W).

Lemma deselectAll_eq st :
  unique_ids (widgets st) ->
  deselectAll env hooks st =
  doRequest env hooks (Js.Int 0) (set_widgets st (reset_all (widgets st))).
Proof.
  intros Hu. unfold deselectAll. unfold bind at 1.
  now rewrite (for_in_widgets_calls _ (fun _ => widget_deselectAll))
    by (intros; reflexivity || exact Hu).
Qed.

(** X12: the manager's [deselectAll] leaves no value selected on any widget
    and then runs a request with start offset 0. *)
Theorem deselectAll_clears st :
  unique_ids (widgets st) ->
  exists ws',
    deselectAll env hooks st
      = doRequest env hooks (Js.Int 0) (set_widgets st ws') /\
    map fst ws' = map fst (widgets st) /\
    all_selected ws' = [].
Proof.
  intros Hu. exists (reset_all (widgets st)).
  split; [now apply deselectAll_eq |].
  split; [unfold reset_all; now rewrite map_map | apply all_selected_reset].
Qed.

Lemma selectOnlyWidget_eq st keepId :
  unique_ids (widgets st) ->
  selectOnlyWidget env hooks keepId st =
  doRequest env hooks (Js.Int 0)
    (set_widgets st
       (map (fun e => (e.1, if String.eqb e.1 keepId then e.2
                            else widget_deselectAll e.2)) (widgets st))).
Proof.
  intros Hu. unfold selectOnlyWidget. unfold bind at 1.
  rewrite (for_in_widgets_updates _
             (fun _ id w => if String.eqb id keepId then w
                            else widget_deselectAll w)).
  - reflexivity.
  - intros id st' w Hl. destruct (String.eqb id keepId); cbn [negb].
    + unfold ret. now rewrite (update_widget_same id w), set_widgets_id.
    + unfold call. now rewrite Hl.
  - exact Hu.
Qed.

(** X13: [selectOnlyWidget keepId] leaves the widget under [keepId] exactly
    as it is, clears the selection of every other widget, and then runs a
    request with start offset 0. *)
Theorem selectOnlyWidget_keeps st keepId (wk : W) :
  unique_ids (widgets st) ->
  lookup_widget keepId (widgets st) = Some wk ->
  exists ws',
    selectOnlyWidget env hooks keepId st
      = doRequest env hooks (Js.Int 0) (set_widgets st ws') /\
    map fst ws' = map fst (widgets st) /\
    lookup_widget keepId ws' = Some wk /\
    (forall id w, id <> keepId -> lookup_widget id (widgets st) = Some w ->
       lookup_widget id ws' = Some (widget_deselectAll w) /\
       selected (widget_deselectAll w) = []).
Proof.
  intros Hu Hk. eexists. split; [now apply selectOnlyWidget_eq |].
  split; [now rewrite map_map |]. split.
  - rewrite (lookup_widget_map
               (fun id w => if String.eqb id keepId then w
                            else widget_deselectAll w)), Hk.
    simpl. now rewrite String.eqb_refl.
  - intros id w Hne Hl.
    rewrite (lookup_widget_map
               (fun id w => if String.eqb id keepId then w
                            else widget_deselectAll w)), Hl.
    simpl. destruct (String.eqb_spec id keepId); [congruence |].
    split; [reflexivity | apply selected_deselectAll].
Qed.

(** X14: unlike [selectItems], the two "only" methods do not raise on an id
    that is not registered: [selectOnlyItems], whose items are dropped, and
    [selectOnlyWidget] then do what [deselectAll] does. *)
Theorem selectOnly_unregistered st keepId (items : list string) :
  unique_ids (widgets st) ->
  lookup_widget keepId (widgets st) = None ->
  selectOnlyItems env hooks keepId items st = deselectAll env hooks st /\
  selectOnlyWidget env hooks keepId st = deselectAll env hooks st.
Proof.
  intros Hu Hn.
  rewrite (selectOnlyItems_eq env hooks st keepId items Hu).
  rewrite (selectOnlyWidget_eq st keepId Hu), (deselectAll_eq st Hu).
  apply lookup_widget_None in Hn.
  assert (Hne : forall e, In e (widgets st) -> String.eqb e.1 keepId = false).
  { intros e He. apply String.eqb_neq. intros Heq. apply Hn.
    rewrite <- Heq. now apply in_map. }
  split; do 2 f_equal; unfold reset_all; apply map_ext_in; intros e He;
    unfold keep_or_clear; now rewrite (Hne e He).
Qed.

(** X15: when the widget reports that nothing changed, [selectItems] and
    [deselectItems] run no request, whatever the transport is: they return
    normally, and only the widget that was called can differ. *)
Theorem unchanged_selection_no_request st id (items : list string) (w : W) :
  lookup_widget id (widgets st) = Some w ->
  ((widget_selectItems items w).1 = false ->
   selectItems env hooks id items st =
   Ok tt (set_widgets st
            (update_widget id (widget_selectItems items w).2 (widgets st)))) /\
  ((widget_deselectItems items w).1 = false ->
   deselectItems env hooks id items st =
   Ok tt (set_widgets st
            (update_widget id (widget_deselectItems items w).2 (widgets st)))).
Proof.
  intros Hl.
  split; intros Hc; unfold selectItems, deselectItems, bind, call_bool;
    rewrite Hl; now rewrite Hc.
Qed.
End Clearing.

(** ** Selecting on one widget *)

Section OneWidget.
Context {W : Type} `{SelectionWidget W}.
Variable env : Env.
Variable hooks : Hooks W.
Implicit Types (st : State W) (ws : registry W).

Lemma lookup_update_same id (w w' : W) ws :
  lookup_widget id ws = Some w ->
  lookup_widget id (update_widget id w' ws) = Some w'.
Proof.
  induction ws as [|[k w0] ws IH]; simpl; [discriminate |].
  destruct (String.eqb_spec k id) as [->|Hne]; simpl.
  - now rewrite String.eqb_refl.
  - intros Hl. destruct (String.eqb_spec k id); [congruence | now apply IH].
Qed.

(** X16: when the widget under [id] reports a change, [selectItems] adds
    the items to what is selected on that widget, leaves every other widget
    as it is, and then runs a request with start offset 0. *)
Theorem selectItems_adds st id (items : list string) (w : W) :
  lookup_widget id (widgets st) = Some w ->
  (widget_selectItems items w).1 = true ->
  exists ws',
    selectItems env hooks id items st
      = doRequest env hooks (Js.Int 0) (set_widgets st ws') /\
    map fst ws' = map fst (widgets st) /\
    lookup_widget id ws' = Some (widget_selectItems items w).2 /\
    Permutation (selected (widget_selectItems items w).2)
                (selected w ++ items) /\
    (forall id', id' <> id ->
                 lookup_widget id' ws' = lookup_widget id' (widgets st)).
Proof.
  intros Hl Hc. eexists. split.
  - unfold selectItems, bind, call_bool. rewrite Hl, Hc. reflexivity.
  - split; [apply update_widget_keys |].
    split; [now apply (lookup_update_same id w) |].
    split; [apply selected_selectItems |].
    intros id' Hne. apply lookup_update_other. congruence.
Qed.

(** X17: [deselectWidget] on a registered widget clears that widget, leaves
    every other widget as it is, and runs a request with start offset 0,
    also when nothing was selected on the widget. *)
Theorem deselectWidget_clears_one st id (w : W) :
  lookup_widget id (widgets st) = Some w ->
  exists ws',
    deselectWidget env hooks id st
      = doRequest env hooks (Js.Int 0) (set_widgets st ws') /\
    map fst ws' = map fst (widgets st) /\
    lookup_widget id ws' = Some (widget_deselectAll w) /\
    selected (widget_deselectAll w) = [] /\
    (forall id', id' <> id ->
                 lookup_widget id' ws' = lookup_widget id' (widgets st)).
Proof.
  intros Hl. eexists. split.
  - unfold deselectWidget, bind, call. rewrite Hl. reflexivity.
  - split; [apply update_widget_keys |].
    split; [now apply (lookup_update_same id w) |].
    split; [apply selected_deselectAll |].
    intros id' Hne. apply lookup_update_other. congruence.
Qed.
End OneWidget.

(** ** Serialising more than once *)

Section Serialisations.
Context {W : Type} `{Widget W}.
Variable env : Env.
Implicit Types (st : State W).

(** X18: every serialisation of a query object in a request cycle appends
    one more [id] to its [fl], and saving it to the hash appends none: after
    a sequence of operations [fl] has grown by as many [id] as there were
    serialisations, and [q] and [fq] are as before. *)
Theorem serialisations_accumulate (o : QueryObj) (ops : list CycleOp) st :
  exists st',
    run_ops env o ops st = Ok tt st' /\
    d_fl (contents (heap st') o)
      = d_fl (contents (heap st) o) ++ repeat "id" (serialisations ops) /\
    d_q (contents (heap st') o) = d_q (contents (heap st) o) /\
    d_fq (contents (heap st') o) = d_fq (contents (heap st) o).
Proof.
  revert st. induction ops as [|op ops IH]; intros st.
  - exists st. cbn [serialisations repeat]. rewrite app_nil_r.
    repeat split.
  - unfold run_ops in IH |- *. cbn [for_in]. unfold bind at 1.
    destruct op as [skip|]; cbn [run_op serialisations].
    + unfold bind at 1. rewrite buildQueryString_eq. unfold ret.
      destruct (IH (set_heap st (pushed_id (heap st) o)))
        as (st' & Hr & Hfl & Hq & Hfq).
      exists st'. split; [exact Hr |].
      rewrite Hfl, Hq, Hfq. unfold pushed_id, with_str, contents.
      cbn [heap set_heap h_str h_q h_fq d_fl d_q d_fq].
      rewrite read_push_eq, <- app_assoc. repeat split.
    + rewrite saveQueryToHash_eq.
      match goal with
      | |- context [for_in ops _ tt ?s] =>
          destruct (IH s) as (st' & Hr & Hfl & Hq & Hfq)
      end.
      exists st'. split; [exact Hr |]. rewrite Hfl, Hq, Hfq. repeat split.
Qed.
End Serialisations.

(** ** Results *)

Section ResultFacts.
Context {W D : Type} `{ResultWidget W D}.

(** X19: [handleResult] returns normally, caches the response, and has
    every widget handle the result and end its animation, in place: the
    registered ids, and all of the manager but the widgets, are as
    before. *)
Theorem handleResult_fans_out (data : D) (p : Page W D) :
  unique_ids (widgets (page_manager p)) ->
  handleResult data p =
  Ok tt
    (mkPage
       (set_widgets (page_manager p)
          (map (fun e => (e.1, widget_endAnimation (widget_handleResult data e.2)))
               (widgets (page_manager p))))
       (Some data)).
Proof.
  intros Hu. unfold handleResult, bind, modify, on_manager.
  cbn [page_manager responseCache].
  rewrite (for_in_widgets_calls _ (fun _ => widget_handleResult data))
    by (intros; reflexivity || exact Hu).
  cbn [page_manager responseCache].
  rewrite (for_in_widgets_calls _ (fun _ => widget_endAnimation)).
  - cbn [widgets set_widgets]. now rewrite map_map.
  - intros; reflexivity.
  - cbn [widgets set_widgets]. unfold unique_ids. now rewrite map_map.
Qed.
End ResultFacts.

(** ** One request after the other *)

Section Requests.
Context {W : Type} `{Widget W}.
Variable env : Env.
Variable hooks : Hooks W.
Implicit Types (st : State W) (ws : registry W).

Lemma write_dom {A} (s : store A) l l' v :
  l ∈ dom s \/ l = l' -> l ∈ dom (write s l' v).
Proof.
  intros Hl. unfold write. rewrite dom_insert_L. apply elem_of_union.
  destruct Hl as [Hl| ->]; [now right | left; now apply elem_of_singleton].
Qed.

Lemma assign_live h o d : live_in (assign h o d).1 o.
Proof.
  unfold live_in, assign. cbn [fst h_str h_date h_q h_fq].
  repeat split; repeat (apply write_dom; (now right) || left); now right.
Qed.

Lemma assign_live_mono h o o' d : live_in h o' -> live_in (assign h o d).1 o'.
Proof.
  unfold live_in, assign. cbn [fst h_str h_date h_q h_fq].
  intros (L1 & L2 & L3 & L4 & L5).
  repeat split; repeat (apply write_dom; left); assumption.
Qed.

Lemma alloc_in {A} (s : store A) v : (alloc s v).1 ∈ dom (alloc s v).2.
Proof.
  rewrite alloc_dom. apply elem_of_union. left. now apply elem_of_singleton.
Qed.

Lemma alloc_mono {A} (s : store A) v l : l ∈ dom s -> l ∈ dom (alloc s v).2.
Proof. intros Hl. rewrite alloc_dom. apply elem_of_union. now right. Qed.

Lemma new_query_live st (s : Js.Number) :
  live_in (new_heap st) (new_query st s).
Proof.
  unfold live_in, new_heap, new_query, slice.
  cbn [qo_fields qo_dates qo_q qo_fl qo_fq h_str h_date h_q h_fq].
  split; [apply alloc_mono, alloc_in |].
  repeat split; apply alloc_in.
Qed.

Lemma alter_all_in_live ws h o :
  live_in h o -> live_in (alter_all_in ws h o).1 o.
Proof.
  revert h o. induction ws as [|[k w] ws IH]; intros h o Hl; [exact Hl |].
  unfold alter_all_in. simpl fold_left.
  specialize (IH (assign h o (widget_alterQuery w (contents h o))).1
                 (assign h o (widget_alterQuery w (contents h o))).2).
  unfold alter_all_in in IH. rewrite <- surjective_pairing in IH.
  exact (IH (assign_live h o (widget_alterQuery w (contents h o)))).
Qed.

Lemma new_heap_date_frame st l :
  l ∈ dom (h_date (heap st)) ->
  read (h_date (new_heap st)) l = read (h_date (heap st)) l.
Proof. intros Hl. unfold new_heap. cbn [h_date]. now apply alloc_frame. Qed.

(** X20: the query object of a request is not touched by the next request:
    a second [buildQuery] returns an object of which every array is another
    array than those of the first, and the first object holds afterwards
    what it held before. *)
Theorem buildQuery_twice st (s s' : Js.Number) :
  unique_ids (widgets st) ->
  exists o1 st1 o2 st2,
    buildQuery s st = Ok o1 st1 /\
    buildQuery s' st1 = Ok o2 st2 /\
    qo_fields o2 <> qo_fields o1 /\ qo_fields o2 <> qo_fl o1 /\
    qo_fl o2 <> qo_fl o1 /\ qo_fl o2 <> qo_fields o1 /\
    qo_dates o2 <> qo_dates o1 /\ qo_q o2 <> qo_q o1 /\
    qo_fq o2 <> qo_fq o1 /\
    contents (heap st2) o1 = contents (heap st1) o1.
Proof.
  intros Hu. rewrite (buildQuery_eq st s Hu).
  set (r1 := alter_all_in (widgets st) (new_heap st) (new_query st s)).
  set (st1 := set_heap st r1.1).
  assert (Hu1 : unique_ids (widgets st1)) by exact Hu.
  exists r1.2, st1. rewrite (buildQuery_eq st1 s' Hu1).
  set (r2 := alter_all_in (widgets st1) (new_heap st1) (new_query st1 s')).
  exists r2.2, (set_heap st1 r2.1).
  split; [reflexivity |]. split; [reflexivity |].
  assert (Hlive : live_in (heap st1) r1.2).
  { pose proof (alter_all_in_live (widgets st) (new_heap st) (new_query st s)
                  (new_query_live st s)) as HL.
    pose proof (alter_all_in_locs (widgets st) (new_heap st) (new_query st s))
      as (E1 & E2 & E3 & E4 & E5).
    fold r1 in HL, E1, E2, E3, E4, E5.
    unfold live_in in *. unfold st1. cbn [heap set_heap].
    rewrite E1, E2, E3, E4, E5. exact HL. }
  pose proof (alter_all_in_locs (widgets st1) (new_heap st1) (new_query st1 s'))
    as (Hf & Hd & Hq & Hfl & Hfq).
  fold r2 in Hf, Hd, Hq, Hfl, Hfq.
  pose proof (new_query_fresh st1 s') as (N1 & N2 & _ & N3 & N4 & N5).
  destruct Hlive as (L1 & L2 & L3 & L4 & L5).
  rewrite <- Hf in N1. rewrite <- Hfl in N2. rewrite <- Hd in N3.
  rewrite <- Hq in N4. rewrite <- Hfq in N5.
  assert (D1 : qo_fields r2.2 <> qo_fields r1.2) by (intros E; apply N1; now rewrite E).
  assert (D2 : qo_fields r2.2 <> qo_fl r1.2) by (intros E; apply N1; now rewrite E).
  assert (D3 : qo_fl r2.2 <> qo_fl r1.2) by (intros E; apply N2; now rewrite E).
  assert (D4 : qo_fl r2.2 <> qo_fields r1.2) by (intros E; apply N2; now rewrite E).
  assert (D5 : qo_dates r2.2 <> qo_dates r1.2) by (intros E; apply N3; now rewrite E).
  assert (D6 : qo_q r2.2 <> qo_q r1.2) by (intros E; apply N4; now rewrite E).
  assert (D7 : qo_fq r2.2 <> qo_fq r1.2) by (intros E; apply N5; now rewrite E).
  repeat (split; [assumption |]).
  pose proof (alter_all_in_frame (widgets st1) (new_heap st1) (new_query st1 s'))
    as (Fs & Fd & Fq & Ffq).
  fold r2 in Fs, Fd, Fq, Ffq.
  pose proof (new_heap_frame st1) as (A1 & A2 & A3).
  unfold contents. cbn [heap set_heap].
  rewrite <- Hf, <- Hfl in Fs. rewrite <- Hd in Fd. rewrite <- Hq in Fq.
  rewrite <- Hfq in Ffq.
  rewrite (Fs (qo_fields r1.2)), (Fs (qo_fl r1.2)) by congruence.
  rewrite Fd, Fq, Ffq by congruence.
  rewrite (A1 _ L1), (A1 _ L2), (A2 _ L4), (A3 _ L5).
  now rewrite (new_heap_date_frame st1 _ L3).
Qed.

(** X21: a request that returns normally does not make the watcher request
    again: right after [doRequest], [tick] leaves the state as it is. *)
Theorem tick_after_request st (s : Js.Number) st' :
  unique_ids (widgets st) ->
  doRequest env hooks s st = Ok tt st' ->
  tick env hooks st' =
  Ok (match fragment st' with EmptyString => Back | String _ _ => Stay end) st'.
Proof.
  intros Hu Hreq. apply tick_quiet.
  rewrite (doRequest_eq env hooks st s Hu) in Hreq. unfold bind in Hreq.
  destruct (executeRequest hooks (built_object st s) (announced st s))
    as [[] st3|e st3]; [| discriminate].
  rewrite saveQueryToHash_eq in Hreq. injection Hreq as <-. reflexivity.
Qed.
End Requests.

(** ** The further properties on the sample manager *)

Lemma sample_transport_frame : transport_frame Sample.hooks.
Proof.
  intros o st. unfold Sample.hooks, executeRequest, bind.
  rewrite buildQueryString_eq. eexists. repeat split.
Qed.

Lemma loadQueryFromHash_empty_witness :
  fragment Sample.two_widgets = "" /\
  loadQueryFromHash Sample.env Sample.two_widgets = Ok tt Sample.two_widgets.
Proof.
  split; [reflexivity |].
  apply (loadQueryFromHash_empty Sample.env Sample.two_widgets). reflexivity.
Defined.

Lemma loadQueryFromHash_frame_witness :
  exists st',
    (loadQueryFromHash Sample.env
       (set_fragment Sample.two_widgets "fq=tags:tag:red&start=20") = Ok tt st' \/
     loadQueryFromHash Sample.env
       (set_fragment Sample.two_widgets "fq=tags:tag:red&start=20")
       = Err TypeError st') /\
    same_but_selection
      (set_fragment Sample.two_widgets "fq=tags:tag:red&start=20") st' /\
    unique_ids (widgets st').
Proof.
  apply (loadQueryFromHash_frame Sample.env
           (set_fragment Sample.two_widgets "fq=tags:tag:red&start=20")).
  sample_unique.
Defined.

Lemma loadQueryFromHash_keeps_start_witness :
  start (final_state
           (loadQueryFromHash Sample.env
              (set_start (set_fragment Sample.two_widgets "q=dogs") (Js.Int 20))))
  = Js.Int 20.
Proof.
  apply (loadQueryFromHash_keeps_start Sample.env
           (set_start (set_fragment Sample.two_widgets "q=dogs") (Js.Int 20))).
  - sample_unique.
  - vm_compute. repeat constructor.
Defined.

Lemma loadQueryFromHash_selection_witness :
  exists st',
    loadQueryFromHash Sample.env
      (set_fragment Sample.two_widgets "fq=tags:tag:red&fq=date:d:2009&q=dogs")
      = Ok tt st' /\
    Permutation (all_selected (widgets st')) ["red"; "dogs"].
Proof.
  apply (loadQueryFromHash_selection Sample.env
           (set_fragment Sample.two_widgets
              "fq=tags:tag:red&fq=date:d:2009&q=dogs")).
  - sample_unique.
  - discriminate.
  - apply routable_check. vm_compute. reflexivity.
Defined.

Lemma start_survives_roundtrip_witness :
  exists st1 st2,
    saveQueryToHash Sample.env (Sample.built Sample.two_widgets).1
      (Sample.built Sample.two_widgets).2 = Ok tt st1 /\
    loadQueryFromHash Sample.env st1 = Ok tt st2 /\
    start st2 = Js.Int 0.
Proof.
  apply (start_survives_roundtrip Sample.env
           (Sample.built Sample.two_widgets).2
           (Sample.built Sample.two_widgets).1).
  - sample_unique.
  - vm_compute. reflexivity.
  - vm_compute. reflexivity.
  - apply routable_check. vm_compute. reflexivity.
Defined.

Lemma start_exponent_roundtrip_witness :
  exists st1 st2 pre,
    saveQueryToHash Sample.env
      (at_birth (Sample.built Sample.two_widgets).1 (Js.Int (10 ^ 21)))
      (Sample.built Sample.two_widgets).2 = Ok tt st1 /\
    Js.split "&" (fragment st1) = pre ++ ["start=1e+21"] /\
    loadQueryFromHash Sample.env st1 = Ok tt st2 /\
    start st2 = Js.Int 1.
Proof.
  apply (start_exponent_roundtrip Sample.env
           (Sample.built Sample.two_widgets).2
           (at_birth (Sample.built Sample.two_widgets).1 (Js.Int (10 ^ 21)))).
  - sample_unique.
  - reflexivity.
  - apply routable_check. vm_compute. reflexivity.
  - reflexivity.
Defined.

Lemma loadQueryFromHash_raises_witness :
  let st := set_fragment Sample.two_widgets
              "q=dogs&fq=constructor:f:v&start=20" in
  loadQueryFromHash Sample.env st
    = Err TypeError
        (set_widgets st
           [("tags", Sample.mkWidget "tags" (Some "tag") []);
            ("text", Sample.text_widget ["dogs"])]) /\
  init Sample.env Sample.hooks st
    = Err TypeError
        (set_widgets st
           [("tags", Sample.mkWidget "tags" (Some "tag") []);
            ("text", Sample.text_widget ["dogs"])]).
Proof.
  intros st.
  assert (Hu : unique_ids (widgets st)) by sample_unique.
  assert (Hpre : Forall (routable Sample.env (widgets st)) ["q=dogs"])
    by (apply routable_check; vm_compute; reflexivity).
  exact (loadQueryFromHash_raises Sample.env Sample.hooks st
           ["q=dogs"] "fq=constructor:f:v" ["start=20"]
           Hu eq_refl Hpre eq_refl).
Defined.

Lemma doRequest_abstract_throws_witness :
  exists st',
    doRequest Sample.env (abstract_hooks Sample.widget) (Js.Int 0)
      Sample.two_widgets
      = Err (Thrown "Abstract method executeRequest") st' /\
    hash st' = hash Sample.two_widgets /\
    fragment st' = fragment Sample.two_widgets /\
    start st' = start Sample.two_widgets /\
    map fst (widgets st') = map fst (widgets Sample.two_widgets).
Proof.
  apply (doRequest_abstract_throws Sample.env Sample.two_widgets (Js.Int 0)).
  sample_unique.
Defined.

Lemma doRequest_saves_witness :
  exists st',
    doRequest Sample.env Sample.hooks (Js.Int 40) Sample.two_widgets
      = Ok tt st' /\
    fragment st' =
      url_fragment Sample.env
        (fragment_of Sample.env
           (alter_all (widgets Sample.two_widgets)
                      (base_query Sample.two_widgets (Js.Int 40)))) /\
    hash st' = location_hash st' /\
    start st' = start Sample.two_widgets.
Proof.
  apply (doRequest_saves Sample.env Sample.hooks Sample.two_widgets (Js.Int 40)).
  - exact sample_transport_frame.
  - sample_unique.
Defined.

Lemma init_requests_at_start_witness :
  exists st',
    loadQueryFromHash Sample.env
      (set_fragment Sample.two_widgets "fq=tags:tag:red&start=20") = Ok tt st' /\
    start st' = Js.Int 20 /\
    init Sample.env Sample.hooks
      (set_fragment Sample.two_widgets "fq=tags:tag:red&start=20")
      = doRequest Sample.env Sample.hooks (Js.Int 20) st'.
Proof.
  apply (init_requests_at_start Sample.env Sample.hooks
           (set_fragment Sample.two_widgets "fq=tags:tag:red&start=20")
           ["fq=tags:tag:red"] (Js.Int 20)).
  - sample_unique.
  - vm_compute. reflexivity.
  - vm_compute. reflexivity.
  - apply routable_check. vm_compute. reflexivity.
Defined.


Lemma registration_order_witness :
  exists st1 o st2,
    register_all Sample.hooks
      [Sample.mkWidget "b" (Some "bee") []; Sample.mkWidget "10" (Some "ten") [];
       Sample.text_widget ["old"]; Sample.mkWidget "9" (Some "nine") []]
      Sample.bare = Ok tt st1 /\
    map fst (widgets st1) = ["9"; "10"; "b"; "text"] /\
    buildQuery (Js.Int 0) st1 = Ok o st2 /\
    contents (heap st2) o =
      fold_left (fun d w => widget_alterQuery (widget_afterAdditionToManager w) d)
        [Sample.mkWidget "9" (Some "nine") []; Sample.mkWidget "10" (Some "ten") [];
         Sample.mkWidget "b" (Some "bee") []; Sample.text_widget ["old"]]
        (base_query Sample.bare (Js.Int 0)).
Proof.
  assert (Hnd : NoDup (map widget_id
                         [Sample.mkWidget "b" (Some "bee") [];
                          Sample.mkWidget "10" (Some "ten") [];
                          Sample.text_widget ["old"];
                          Sample.mkWidget "9" (Some "nine") []]))
    by (apply (bool_decide_unpack _); vm_compute; exact I).
  assert (Hadm : Forall (fun w => canAddWidget Sample.hooks w = true)
                        [Sample.mkWidget "b" (Some "bee") [];
                         Sample.mkWidget "10" (Some "ten") [];
                         Sample.text_widget ["old"];
                         Sample.mkWidget "9" (Some "nine") []])
    by (repeat constructor).
  assert (Hproto : Forall (fun w => widget_id w <> "__proto__")
                          [Sample.mkWidget "b" (Some "bee") [];
                           Sample.mkWidget "10" (Some "ten") [];
                           Sample.text_widget ["old"];
                           Sample.mkWidget "9" (Some "nine") []])
    by (repeat constructor; discriminate).
  exact (registration_order Sample.hooks _ Sample.bare (Js.Int 0)
           eq_refl Hnd Hadm Hproto).
Defined.

Lemma deselectAll_clears_witness :
  exists ws',
    deselectAll Sample.env Sample.hooks Sample.two_widgets
      = doRequest Sample.env Sample.hooks (Js.Int 0)
          (set_widgets Sample.two_widgets ws') /\
    map fst ws' = map fst (widgets Sample.two_widgets) /\
    all_selected ws' = [].
Proof.
  apply (deselectAll_clears Sample.env Sample.hooks Sample.two_widgets).
  sample_unique.
Defined.

Lemma selectOnlyWidget_keeps_witness :
  exists ws',
    selectOnlyWidget Sample.env Sample.hooks "tags" Sample.two_widgets
      = doRequest Sample.env Sample.hooks (Js.Int 0)
          (set_widgets Sample.two_widgets ws') /\
    map fst ws' = map fst (widgets Sample.two_widgets) /\
    lookup_widget "tags" ws' = Some (Sample.mkWidget "tags" (Some "tag") ["x"]) /\
    (forall id w, id <> "tags" ->
       lookup_widget id (widgets Sample.two_widgets) = Some w ->
       lookup_widget id ws' = Some (widget_deselectAll w) /\
       selected (widget_deselectAll w) = []).
Proof.
  apply (selectOnlyWidget_keeps Sample.env Sample.hooks Sample.two_widgets
           "tags" (Sample.mkWidget "tags" (Some "tag") ["x"])).
  - sample_unique.
  - reflexivity.
Defined.

Lemma selectOnly_unregistered_witness :
  selectOnlyItems Sample.env Sample.hooks "date" ["2009"] Sample.two_widgets
    = deselectAll Sample.env Sample.hooks Sample.two_widgets /\
  selectOnlyWidget Sample.env Sample.hooks "date" Sample.two_widgets
    = deselectAll Sample.env Sample.hooks Sample.two_widgets.
Proof.
  apply (selectOnly_unregistered Sample.env Sample.hooks Sample.two_widgets
           "date" ["2009"]).
  - sample_unique.
  - reflexivity.
Defined.

Lemma unchanged_selection_no_request_witness :
  selectItems Sample.env Sample.hooks "tags" [] Sample.two_widgets
    = Ok tt Sample.two_widgets /\
  deselectItems Sample.env Sample.hooks "tags" ["z"] Sample.two_widgets
    = Ok tt Sample.two_widgets.
Proof.
  destruct (unchanged_selection_no_request Sample.env Sample.hooks
              Sample.two_widgets "tags" []
              (Sample.mkWidget "tags" (Some "tag") ["x"]) eq_refl) as [Hs _].
  destruct (unchanged_selection_no_request Sample.env Sample.hooks
              Sample.two_widgets "tags" ["z"]
              (Sample.mkWidget "tags" (Some "tag") ["x"]) eq_refl) as [_ Hd].
  split; [exact (Hs eq_refl) | exact (Hd eq_refl)].
Defined.

Lemma selectItems_adds_witness :
  exists ws',
    selectItems Sample.env Sample.hooks "tags" ["y"] Sample.two_widgets
      = doRequest Sample.env Sample.hooks (Js.Int 0)
          (set_widgets Sample.two_widgets ws') /\
    map fst ws' = map fst (widgets Sample.two_widgets) /\
    lookup_widget "tags" ws' = Some (Sample.mkWidget "tags" (Some "tag") ["x"; "y"]) /\
    Permutation ["x"; "y"] (["x"] ++ ["y"]) /\
    (forall id', id' <> "tags" ->
                 lookup_widget id' ws' = lookup_widget id' (widgets Sample.two_widgets)).
Proof.
  exact (selectItems_adds Sample.env Sample.hooks Sample.two_widgets "tags"
           ["y"] (Sample.mkWidget "tags" (Some "tag") ["x"]) eq_refl eq_refl).
Defined.

Lemma deselectWidget_clears_one_witness :
  exists ws',
    deselectWidget Sample.env Sample.hooks "tags" Sample.two_widgets
      = doRequest Sample.env Sample.hooks (Js.Int 0)
          (set_widgets Sample.two_widgets ws') /\
    map fst ws' = map fst (widgets Sample.two_widgets) /\
    lookup_widget "tags" ws' = Some (Sample.mkWidget "tags" (Some "tag") []) /\
    @nil string = [] /\
    (forall id', id' <> "tags" ->
                 lookup_widget id' ws' = lookup_widget id' (widgets Sample.two_widgets)).
Proof.
  exact (deselectWidget_clears_one Sample.env Sample.hooks Sample.two_widgets
           "tags" (Sample.mkWidget "tags" (Some "tag") ["x"]) eq_refl).
Defined.

Lemma handleResult_fans_out_witness :
  handleResult ["doc1"; "doc2"] (mkPage Sample.two_widgets None)
  = Ok tt (mkPage Sample.two_widgets (Some ["doc1"; "doc2"])).
Proof.
  assert (Hu : unique_ids (widgets Sample.two_widgets)) by sample_unique.
  exact (handleResult_fans_out ["doc1"; "doc2"]
           (mkPage Sample.two_widgets None) Hu).
Defined.

Lemma buildQuery_twice_witness :
  exists o1 st1 o2 st2,
    buildQuery (Js.Int 0) Sample.two_widgets = Ok o1 st1 /\
    buildQuery (Js.Int 10) st1 = Ok o2 st2 /\
    qo_fields o2 <> qo_fields o1 /\ qo_fields o2 <> qo_fl o1 /\
    qo_fl o2 <> qo_fl o1 /\ qo_fl o2 <> qo_fields o1 /\
    qo_dates o2 <> qo_dates o1 /\ qo_q o2 <> qo_q o1 /\
    qo_fq o2 <> qo_fq o1 /\
    contents (heap st2) o1 = contents (heap st1) o1.
Proof.
  apply (buildQuery_twice Sample.two_widgets (Js.Int 0) (Js.Int 10)).
  sample_unique.
Defined.

Lemma tick_after_request_witness :
  exists st',
    doRequest Sample.env Sample.hooks (Js.Int 0) Sample.two_widgets = Ok tt st' /\
    tick Sample.env Sample.hooks st' = Ok Stay st'.
Proof.
  eexists. split; [vm_compute; reflexivity |].
  refine (tick_after_request Sample.env Sample.hooks Sample.two_widgets
            (Js.Int 0) _ _ _); [sample_unique | vm_compute; reflexivity].
Defined.
